(** * Pipe-notch-generator: geometry kernel and DXF codecs

    A shallow embedding of

    - [src/core/math-utils.ts]      ([degToRad], [safeSmall], [clampToZero]),
    - [src/core/geometry-engine.ts] ([calculateNotchGeometry],
      [calculateUnrolledPoints], [calculatePipe2D], [calculateHole2D]),
    - [src/core/dxf-service.ts]     ([generateDXF] and its private contour
      loops),
    - [src/core/dxf-writer.ts]      ([DxfWriter], [createDxfString]),

    followed by the properties the specification states about them.

    ** Numbers

    A JavaScript [number] is modelled by the type [number] below: the three
    special values [NaN], [-Infinity], [+Infinity] with the IEEE-754 rules
    that drive the control flow of the program (every comparison with [NaN]
    is false, [Infinity - Infinity] is [NaN], [0 * Infinity] is [NaN],
    [x / Infinity] is [0], ...), and the finite values as real numbers with
    exact arithmetic.  Rounding and overflow of binary64 are not modelled,
    and there is one zero, which behaves as [+0].  [Math.sin], [Math.cos],
    [Math.sqrt] are the real functions on finite arguments; [Math.tan] is
    [sin / cos] with the division of the model, so that at a pole it is an
    infinity (binary64 gives a number of the order of [1e16] there).

    The properties are stated so that they do not rest on this
    exactness: where a conclusion needs a computed value to be finite,
    the hypothesis is put on the computed value and not on the inputs,
    and the conclusions are equalities of values computed by the same
    operations, counts, and comparisons that a correctly rounded
    arithmetic keeps. *)

From Stdlib Require Import Reals Lra Lia List Sorted String Ascii Bool Arith DecimalString.
Import ListNotations.

(* ================================================================== *)
(** * JavaScript numbers *)
(* ================================================================== *)

Inductive number : Type :=
| NaN
| NegInfinity
| Infinity
| Num (r : R).

Coercion Num : R >-> number.

Declare Scope js_scope.
Delimit Scope js_scope with js.
Bind Scope js_scope with number.

Definition Rltb (a b : R) : bool := if Rlt_dec a b then true else false.
Definition Rleb (a b : R) : bool := if Rle_dec a b then true else false.
Definition Reqb (a b : R) : bool := if Req_dec_T a b then true else false.

(** [+Infinity] or [-Infinity], by the sign of the operands. *)
Definition signed_inf (positive : bool) : number :=
  if positive then Infinity else NegInfinity.

Module JS.

(** Unary minus. *)
Definition neg (x : number) : number :=
  match x with
  | NaN => NaN
  | NegInfinity => Infinity
  | Infinity => NegInfinity
  | Num a => Num (- a)
  end.

Definition add (x y : number) : number :=
  match x, y with
  | NaN, _ | _, NaN => NaN
  | Infinity, NegInfinity | NegInfinity, Infinity => NaN
  | Infinity, _ | _, Infinity => Infinity
  | NegInfinity, _ | _, NegInfinity => NegInfinity
  | Num a, Num b => Num (a + b)
  end.

Definition sub (x y : number) : number := add x (neg y).

Definition mul (x y : number) : number :=
  match x, y with
  | NaN, _ | _, NaN => NaN
  | Num a, Num b => Num (a * b)
  | Num a, Infinity | Infinity, Num a =>
      if Reqb a 0 then NaN else signed_inf (Rltb 0 a)
  | Num a, NegInfinity | NegInfinity, Num a =>
      if Reqb a 0 then NaN else signed_inf (Rltb a 0)
  | Infinity, Infinity | NegInfinity, NegInfinity => Infinity
  | Infinity, NegInfinity | NegInfinity, Infinity => NegInfinity
  end.

Definition div (x y : number) : number :=
  match x, y with
  | NaN, _ | _, NaN => NaN
  | Num a, Num b =>
      if Reqb b 0
      then (if Reqb a 0 then NaN else signed_inf (Rltb 0 a))
      else Num (a / b)
  | Num _, Infinity | Num _, NegInfinity => Num 0
  | Infinity, Num b => signed_inf (Rleb 0 b)
  | NegInfinity, Num b => signed_inf (Rltb b 0)
  | Infinity, Infinity | Infinity, NegInfinity
  | NegInfinity, Infinity | NegInfinity, NegInfinity => NaN
  end.

(** [x < y], [x <= y], [x > y], [x >= y], [x === y]: false as soon as
    one side is [NaN]. *)
Definition lt (x y : number) : bool :=
  match x, y with
  | NaN, _ | _, NaN => false
  | NegInfinity, NegInfinity => false
  | NegInfinity, _ => true
  | _, NegInfinity => false
  | Infinity, _ => false
  | _, Infinity => true
  | Num a, Num b => Rltb a b
  end.

Definition le (x y : number) : bool :=
  match x, y with
  | NaN, _ | _, NaN => false
  | NegInfinity, _ => true
  | _, NegInfinity => false
  | _, Infinity => true
  | Infinity, _ => false
  | Num a, Num b => Rleb a b
  end.

Definition gt (x y : number) : bool := lt y x.
Definition ge (x y : number) : bool := le y x.

Definition strict_eq (x y : number) : bool :=
  match x, y with
  | NegInfinity, NegInfinity | Infinity, Infinity => true
  | Num a, Num b => Reqb a b
  | _, _ => false
  end.

Definition isNaN (x : number) : bool :=
  match x with NaN => true | _ => false end.

(** ToBoolean on a number: [0] and [NaN] are falsy. *)
Definition truthy (x : number) : bool :=
  match x with
  | NaN => false
  | Num a => negb (Reqb a 0)
  | _ => true
  end.

(** [!x]. *)
Definition not (x : number) : bool := negb (truthy x).

(** [x || y] on numbers. *)
Definition or (x y : number) : number := if truthy x then x else y.

(** A loop counter as a number. *)
Definition of_nat (n : nat) : number := Num (INR n).

End JS.

Notation "x + y" := (JS.add x y) : js_scope.
Notation "x - y" := (JS.sub x y) : js_scope.
Notation "x * y" := (JS.mul x y) : js_scope.
Notation "x / y" := (JS.div x y) : js_scope.
Notation "- x" := (JS.neg x) : js_scope.
Notation "x <? y" := (JS.lt x y) (at level 70) : js_scope.
Notation "x <=? y" := (JS.le x y) (at level 70) : js_scope.
Notation "x >? y" := (JS.gt x y) (at level 70) : js_scope.
Notation "x >=? y" := (JS.ge x y) (at level 70) : js_scope.
Notation "x === y" := (JS.strict_eq x y) (at level 70) : js_scope.
Notation "! x" := (JS.not x) (at level 35, right associativity) : js_scope.

(** The real two-argument arctangent, with [atan2 0 0 = 0]. *)
Definition Ratan2 (y x : R) : R :=
if Rltb 0 x then atan (y / x)
else if Rltb x 0 then
       (if Rleb 0 y then atan (y / x) + PI else atan (y / x) - PI)
     else if Rltb 0 y then PI / 2
          else if Rltb y 0 then - (PI / 2) else 0.

Module Math.

Definition PI : number := Num Rtrigo1.PI.

Definition abs (x : number) : number :=
  match x with
  | NaN => NaN
  | NegInfinity | Infinity => Infinity
  | Num a => Num (Rabs a)
  end.

Definition sqrt (x : number) : number :=
  match x with
  | NaN | NegInfinity => NaN
  | Infinity => Infinity
  | Num a => if Rltb a 0 then NaN else Num (R_sqrt.sqrt a)
  end.

Definition sin (x : number) : number :=
  match x with
  | Num a => Num (Rtrigo_def.sin a)
  | _ => NaN
  end.

Definition cos (x : number) : number :=
  match x with
  | Num a => Num (Rtrigo_def.cos a)
  | _ => NaN
  end.

Definition tan (x : number) : number := (sin x / cos x)%js.

(** [Math.pow(x, n)] for a natural exponent; the program only ever
    squares. *)
Fixpoint pow (x : number) (n : nat) : number :=
  match n with
  | O => Num 1
  | S k => (x * pow x k)%js
  end.

Definition atan2 (y x : number) : number :=
  match y, x with
  | NaN, _ | _, NaN => NaN
  | Num b, Num a => Num (Ratan2 b a)
  | Num b, Infinity => Num 0
  | Num b, NegInfinity =>
      if Rleb 0 b then Num Rtrigo1.PI else Num (- Rtrigo1.PI)
  | Infinity, Num _ => Num (Rtrigo1.PI / 2)
  | NegInfinity, Num _ => Num (- (Rtrigo1.PI / 2))
  | Infinity, Infinity => Num (Rtrigo1.PI / 4)
  | NegInfinity, Infinity => Num (- (Rtrigo1.PI / 4))
  | Infinity, NegInfinity => Num (3 * Rtrigo1.PI / 4)
  | NegInfinity, NegInfinity => Num (- (3 * Rtrigo1.PI / 4))
  end.

(** [Math.max(a, b)] and [Math.min(a, b)]: [NaN] is contagious. *)
Definition max2 (x y : number) : number :=
  match x, y with
  | NaN, _ | _, NaN => NaN
  | _, _ => if JS.lt x y then y else x
  end.

Definition min2 (x y : number) : number :=
  match x, y with
  | NaN, _ | _, NaN => NaN
  | _, _ => if JS.lt y x then y else x
  end.

(** [Math.max(...xs)] and [Math.min(...xs)]. *)
Definition max (xs : list number) : number := fold_left max2 xs NegInfinity.
Definition min (xs : list number) : number := fold_left min2 xs Infinity.

End Math.

(* ================================================================== *)
(** * Shared types ([src/types]) *)
(* ================================================================== *)

(** [Point2D] and [Point3D] of [src/types]. *)
Module Point2D.
Record t : Type := mk { x : number; y : number }.
End Point2D.

Module Point3D.
Record t : Type := mk { x : number; y : number; z : number }.
End Point3D.

(** [PipeParameters] of [src/types]. *)
Record PipeParameters : Type := {
  d1 : number;
  d2 : number;
  thickness : number;
  angle : number;
  offset : number;
  weldingGap : number;
  startAngle : number;
  paddingD1 : number;
  paddingD2 : number;
  calcByID : bool
}.

(** The template kinds ['pipe' | 'hole']. *)
Inductive TemplateType : Type := pipe | hole.

(** [for (let i = 0; i <= n; i++)]: the values the counter takes. *)
Definition upto (n : nat) : list nat := seq 0 (S n).

(** [for (let i = 0; i < n; i++)]. *)
Definition below (n : nat) : list nat := seq 0 n.

(** A loop that threads a state through its iterations. *)
Definition for_each {A S : Type} (xs : list A) (body : A -> S -> S) (s : S) : S :=
  fold_left (fun st a => body a st) xs s.

(* ================================================================== *)
(** * math-utils.ts *)
(* ================================================================== *)

Module MathUtils.
Local Open Scope R_scope.
Local Open Scope js_scope.

Definition degToRad (degrees : number) : number :=
  (degrees * Math.PI) / 180.

Definition safeSmall (val : number) (epsilon : number) : number :=
  if Math.abs val <? epsilon
  then (if val >=? 0 then epsilon else - epsilon)
  else val.

Definition clampToZero (val : number) (epsilon : number) : number :=
  if Math.abs val <? epsilon then Num 0 else val.

(** The default value of the [epsilon] parameter. *)
Definition epsilon_default : number := Num 1e-6.

End MathUtils.

(* ================================================================== *)
(** * geometry-engine.ts *)
(* ================================================================== *)

Module GeometryEngine.
Import MathUtils.
Local Open Scope R_scope.
Local Open Scope js_scope.

Record GeometryResult : Type := {
  vertices : list Point3D.t;
  indices : list nat;
  uvs : list number;
  isValid : bool;
  error : option string;
  contour2D : option (list Point2D.t)
}.

(** The locals every function of the file derives from its parameters. *)
Definition R1 (params : PipeParameters) : number := d1 params / 2.
Definition R2_outer (params : PipeParameters) : number := d2 params / 2.
Definition R2_inner (params : PipeParameters) : number :=
  R2_outer params - thickness params.
Definition R2_calc (params : PipeParameters) : number :=
  if calcByID params then R2_outer params else R2_inner params.
Definition R2_mesh (params : PipeParameters) : number := R2_outer params.
Definition R2_draw (params : PipeParameters) : number := R2_outer params.
Definition R2_hole (params : PipeParameters) : number := R2_inner params.

Definition angleRad (params : PipeParameters) : number := degToRad (angle params).
Definition startAngleRad (params : PipeParameters) : number :=
  degToRad (startAngle params).
Definition sinTheta (params : PipeParameters) : number := Math.sin (angleRad params).
Definition cosTheta (params : PipeParameters) : number := Math.cos (angleRad params).
Definition tanTheta (params : PipeParameters) : number := Math.tan (angleRad params).
Definition sT (params : PipeParameters) : number :=
  safeSmall (sinTheta params) epsilon_default.
Definition tT (params : PipeParameters) : number :=
  safeSmall (tanTheta params) epsilon_default.

(** The guard of [calculateNotchGeometry]:
    [!d1 || !d2 || d1 <= 0 || d2 <= 0 || isNaN(d1) || isNaN(d2)]. *)
Definition invalidDiameters (params : PipeParameters) : bool :=
  (! d1 params) || (! d2 params) || (d1 params <=? 0) || (d2 params <=? 0)
  || JS.isNaN (d1 params) || JS.isNaN (d2 params).

(** [Math.pow(R1, 2) - Math.pow(R2_calc * Math.sin(a) + offset, 2)], the
    expression every depth computation of the program starts from. *)
Definition intersectionTerm (r1 r2 off a : number) : number :=
  Math.pow r1 2 - Math.pow (r2 * Math.sin a + off) 2.

(** [alpha] of mesh column [x]: [(x / segments) * 2 * Math.PI]. *)
Definition meshAlpha (segments x : nat) : number :=
  (JS.of_nat x / JS.of_nat segments) * 2 * Math.PI.

(** [term] of mesh column [x]. *)
Definition meshTerm (params : PipeParameters) (segments x : nat) : number :=
  intersectionTerm (R1 params) (R2_calc params) (offset params)
    (meshAlpha segments x).

(** The first loop: does some column have [term < -0.1]?  It returns at
    the first one it finds. *)
Definition noIntersection (params : PipeParameters) (segments : nat) : bool :=
  existsb (fun x => meshTerm params segments x <? Num (-0.1)) (upto segments).

(** The three arrays the grid loop pushes to. *)
Record MeshBuffers : Type := {
  buf_vertices : list number;
  buf_uvs : list number;
  buf_contour2D : list Point2D.t
}.

Definition pipe2Length (params : PipeParameters) : number :=
  d1 params * 1.5 + 100.

(** The body of the grid loop, for row [y] and column [x]. *)
Definition meshBody (params : PipeParameters) (segments : nat)
    (y x : nat) (st : MeshBuffers) : MeshBuffers :=
  let alpha := meshAlpha segments x in
  let sinAlpha := Math.sin alpha in
  let cosAlpha := Math.cos alpha in
  let term0 := Math.pow (R1 params) 2
               - Math.pow (R2_calc params * sinAlpha + offset params) 2 in
  let term := if term0 <? 0 then Num 0 else term0 in
  let part1 := (1 / sT params) * Math.sqrt term in
  let part2 := (R2_mesh params * cosAlpha) / tT params in
  let cutDepth := part1 + part2 - weldingGap params in
  let unrolledX :=
    (JS.of_nat x / JS.of_nat segments) * (2 * Math.PI * R2_outer params) in
  let len := if Nat.eqb y 0 then cutDepth else d1 params + pipe2Length params in
  let contour := if Nat.eqb y 0
                 then buf_contour2D st ++ [Point2D.mk unrolledX cutDepth]
                 else buf_contour2D st in
  let wx := Math.sin (angleRad params) in
  let wy := Math.cos (angleRad params) in
  let wz := Num 0 in
  let vx := Num 0 in
  let vy := Num 0 in
  let vz := Num 1 in
  let ux := - cosTheta params in
  let uy := sinTheta params in
  let uz := Num 0 in
  let radComp1 := R2_mesh params * cosAlpha in
  let radComp2 := R2_mesh params * sinAlpha + offset params in
  let pX := (radComp1 * ux) + (radComp2 * vx) + (len * wx) in
  let pY := (radComp1 * uy) + (radComp2 * vy) + (len * wy) in
  let pZ := (radComp1 * uz) + (radComp2 * vz) + (len * wz) in
  {| buf_vertices := buf_vertices st ++ [pX; pY; pZ];
     buf_uvs := buf_uvs st ++ [JS.of_nat x / JS.of_nat segments; JS.of_nat y];
     buf_contour2D := contour |}.

(** [for (let y = 0; y <= 1; y++) for (let x = 0; x <= segments; x++)]. *)
Definition meshLoop (params : PipeParameters) (segments : nat) : MeshBuffers :=
  for_each (upto 1)
    (fun y => for_each (upto segments) (meshBody params segments y))
    {| buf_vertices := []; buf_uvs := []; buf_contour2D := [] |}.

(** The index loop: two triangles [a b d], [a d c] per column. *)
Definition indexLoop (segments : nat) : list nat :=
  for_each (below segments)
    (fun x indices =>
       let a := x in
       let b := x + 1 in
       let c := x + segments + 1 in
       let d := x + segments + 2 in
       (indices ++ [a; b; d]) ++ [a; d; c])%nat
    [].

(** [for (let i = 0; i < vertices.length; i += 3)]: the values of [i]. *)
Definition strides3 (len : nat) : list nat :=
  map (fun k => 3 * k)%nat (below ((len + 2) / 3)).

(** [vertices[i]]; a read past the end gives [undefined], which no
    arithmetic follows here: it is kept as [NaN]. *)
Definition at_index (vs : list number) (i : nat) : number := nth i vs NaN.

Definition structuredVertices (vs : list number) : list Point3D.t :=
  for_each (strides3 (List.length vs))
    (fun i out =>
       out ++ [Point3D.mk (at_index vs i) (at_index vs (i + 1)) (at_index vs (i + 2))])
    [].

Definition invalidResult (msg : string) : GeometryResult :=
  {| vertices := []; indices := []; uvs := []; isValid := false;
     error := Some msg; contour2D := None |}.

Definition calculateNotchGeometry (params : PipeParameters) (segments : nat)
  : GeometryResult :=
  if invalidDiameters params then invalidResult "Invalid Diameters."
  else if noIntersection params segments
  then invalidResult "Geometry Error: Pipes do not intersect."
  else
    let st := meshLoop params segments in
    {| vertices := structuredVertices (buf_vertices st);
       indices := indexLoop segments;
       uvs := buf_uvs st;
       isValid := true;
       error := None;
       contour2D := Some (buf_contour2D st) |}.

(** The default value of [segments]. *)
Definition segments_default : nat := 128.

(** [points.push(p)] unless the body ran into [continue]. *)
Definition push_sample (sample : option Point2D.t) (points : list Point2D.t)
  : list Point2D.t :=
  match sample with
  | Some p => points ++ [p]
  | None => points
  end.

(** [let minY = Infinity; for (const p of points) if (p.y < minY) minY = p.y]. *)
Definition minYOf (points : list Point2D.t) : number :=
  for_each points
    (fun p minY => if Point2D.y p <? minY then Point2D.y p else minY)
    Infinity.

(** The tail shared by [calculatePipe2D] and [calculateHole2D]: shift the
    contour so that its lowest point sits at [padding]; no point at all
    (or none below [Infinity]) gives the empty array. *)
Definition normalize (points : list Point2D.t) (padding : number)
  : list Point2D.t :=
  let minY := minYOf points in
  if minY === Infinity then []
  else map (fun p => Point2D.mk (Point2D.x p) (Point2D.y p - minY + padding))
           points.

(** Depth of the branch cut at angular position [effAngle]: the lines
    from [let term] to [lengthToTouch]; [None] is [continue]. *)
Definition lengthToTouch (params : PipeParameters) (effAngle : number)
  : option number :=
  let term := Math.pow (R1 params) 2
              - Math.pow (R2_calc params * Math.sin effAngle + offset params) 2 in
  let clamped :=
    if term <? 0
    then (if term >? Num (-0.1) then Some (Num 0) else None)
    else Some term in
  match clamped with
  | None => None
  | Some term =>
      Some (((1 / sT params) * Math.sqrt term
             + (R2_draw params * Math.cos effAngle / tT params))
            - weldingGap params)
  end.

Definition circumference (params : PipeParameters) : number :=
  2 * Math.PI * R2_draw params.

(** [effAngle] of sample [i]. *)
Definition effAngleOf (params : PipeParameters) (steps i : nat) : number :=
  ((JS.of_nat i / JS.of_nat steps) * 2 * Math.PI) + startAngleRad params.

(** The body of the sample loop of [calculatePipe2D]. *)
Definition pipe2DBody (params : PipeParameters) (steps i : nat)
  : option Point2D.t :=
  let ratio := JS.of_nat i / JS.of_nat steps in
  let effAngle := effAngleOf params steps i in
  let x := ratio * circumference params in
  match lengthToTouch params effAngle with
  | None => None
  | Some depth => Some (Point2D.mk x depth)
  end.

(** The points of [calculatePipe2D] before normalization. *)
Definition pipe2DRaw (params : PipeParameters) (steps : nat) : list Point2D.t :=
  for_each (upto steps) (fun i => push_sample (pipe2DBody params steps i)) [].

Definition calculatePipe2D (params : PipeParameters) (steps : nat)
  : list Point2D.t :=
  normalize (pipe2DRaw params steps) (JS.or (paddingD2 params) 0).

(** The body of the sample loop of [calculateHole2D]. *)
Definition hole2DBody (params : PipeParameters) (steps i : nat)
  : option Point2D.t :=
  let alpha := (JS.of_nat i / JS.of_nat steps) * 2 * Math.PI in
  let r2Sin := R2_hole params * Math.sin alpha in
  let r2Cos := R2_hole params * Math.cos alpha in
  let C1 := r2Cos * cosTheta params in
  let C2 := r2Sin + offset params in
  let term := R1 params * R1 params - C2 * C2 in
  if term <? 0 then None
  else
    let sqrtVal := Math.sqrt term in
    let t := (sqrtVal + C1) / sT params in
    let x3d := t * sinTheta params - r2Cos * cosTheta params in
    let z3d := r2Sin + offset params in
    let y3d := t * cosTheta params + r2Cos * sinTheta params in
    let phi0 := Math.atan2 z3d x3d in
    let phi := if phi0 <? 0 then phi0 + 2 * Math.PI else phi0 in
    let phiShift0 := phi - Math.PI in
    let phiShift := if phiShift0 <? 0 then phiShift0 + 2 * Math.PI else phiShift0 in
    let xUnroll := R1 params * phiShift in
    let yUnroll := y3d in
    Some (Point2D.mk xUnroll yUnroll).

(** The points of [calculateHole2D] before normalization. *)
Definition hole2DRaw (params : PipeParameters) (steps : nat) : list Point2D.t :=
  for_each (upto steps) (fun i => push_sample (hole2DBody params steps i)) [].

Definition calculateHole2D (params : PipeParameters) (steps : nat)
  : list Point2D.t :=
  normalize (hole2DRaw params steps) (JS.or (paddingD1 params) 0).

Definition calculateUnrolledPoints (params : PipeParameters) (type : TemplateType)
  : list Point2D.t :=
  let steps := 360%nat in
  match type with
  | pipe => calculatePipe2D params steps
  | hole => calculateHole2D params steps
  end.

End GeometryEngine.

(* ================================================================== *)
(** * Text of a DXF stream *)
(* ================================================================== *)

(** The line feed the template literals write as a backslash and [n]. *)
Definition nl : string := String (ascii_of_nat 10) EmptyString.

Infix "^^" := String.append (at level 60, right associativity).

(** [parts.join] with the empty separator. *)
Fixpoint join (parts : list string) : string :=
  match parts with
  | [] => EmptyString
  | part :: rest => part ^^ join rest
  end.

(** Every item followed by a line feed: the template literal
    [`0\nSECTION\n2\nENTITIES\n`] is [lines ["0"; "SECTION"; "2"; "ENTITIES"]]. *)
Definition lines (items : list string) : string :=
  join (map (fun item => item ^^ nl) items).

(** [haystack.includes(needle)]. *)
Fixpoint includes (needle haystack : string) : bool :=
  String.prefix needle haystack
  || match haystack with
     | EmptyString => false
     | String _ rest => includes needle rest
     end.

(* ================================================================== *)
(** * dxf-service.ts *)
(* ================================================================== *)

Module DxfService.
Import MathUtils.
Local Open Scope R_scope.
Local Open Scope js_scope.

Section Service.

(** [n.toFixed(digits)], the decimal rendering of a number. *)
Variable toFixed : number -> nat -> string.

Definition R1 (params : PipeParameters) : number := d1 params / 2.
Definition R2_outer (params : PipeParameters) : number := d2 params / 2.
Definition R2_inner (params : PipeParameters) : number :=
  R2_outer params - thickness params.
(** [const R2_calc = R2_outer; // As per legacy 'checked' default] *)
Definition R2_calc (params : PipeParameters) : number := R2_outer params.
Definition R2_draw (params : PipeParameters) : number := R2_outer params.

Definition angleRad (params : PipeParameters) : number := degToRad (angle params).
Definition startAngleRad (params : PipeParameters) : number :=
  degToRad (startAngle params).
Definition sinTheta (params : PipeParameters) : number := Math.sin (angleRad params).
Definition cosTheta (params : PipeParameters) : number := Math.cos (angleRad params).
Definition tanTheta (params : PipeParameters) : number := Math.tan (angleRad params).
Definition sT (params : PipeParameters) : number :=
  safeSmall (sinTheta params) epsilon_default.
Definition tT (params : PipeParameters) : number :=
  safeSmall (tanTheta params) epsilon_default.

Definition steps : nat := 360.

(** The body of the sample loop of the private [calculatePipe2D]. *)
Definition pipe2DBody (params : PipeParameters) (i : nat) : option Point2D.t :=
  let ratio := JS.of_nat i / JS.of_nat steps in
  let angleLoop := ratio * 2 * Math.PI in
  let effAngle := angleLoop + startAngleRad params in
  let x := ratio * (2 * Math.PI * R2_draw params) in
  let term := Math.pow (R1 params) 2
              - Math.pow (R2_calc params * Math.sin effAngle + offset params) 2 in
  let clamped :=
    if term <? 0
    then (if term >? Num (-0.1) then Some (Num 0) else None)
    else Some term in
  match clamped with
  | None => None
  | Some term =>
      let lengthToTouch :=
        ((1 / sT params) * Math.sqrt term
         + (R2_draw params * Math.cos effAngle / tT params))
        - weldingGap params in
      Some (Point2D.mk x lengthToTouch)
  end.

Definition calculatePipe2D (params : PipeParameters) : list Point2D.t :=
  for_each (upto steps)
    (fun i => GeometryEngine.push_sample (pipe2DBody params i)) [].

(** The body of the sample loop of the private [calculateHole2D]. *)
Definition hole2DBody (params : PipeParameters) (i : nat) : option Point2D.t :=
  let alpha := (JS.of_nat i / JS.of_nat steps) * 2 * Math.PI in
  let R2 := R2_inner params in
  let r2Sin := R2 * Math.sin alpha in
  let r2Cos := R2 * Math.cos alpha in
  let C1 := r2Cos * cosTheta params in
  let C2 := r2Sin + offset params in
  let term := R1 params * R1 params - C2 * C2 in
  if term <? 0 then None
  else
    let sqrtVal := Math.sqrt term in
    let t := (sqrtVal + C1) / sT params in
    let x3d := t * sinTheta params - r2Cos * cosTheta params in
    let z3d := r2Sin + offset params in
    let y3d := t * cosTheta params + r2Cos * sinTheta params in
    let phi0 := Math.atan2 z3d x3d in
    let phi := if phi0 <? 0 then phi0 + 2 * Math.PI else phi0 in
    let phiShift0 := phi - Math.PI in
    let phiShift := if phiShift0 <? 0 then phiShift0 + 2 * Math.PI else phiShift0 in
    let xUnroll := R1 params * phiShift in
    Some (Point2D.mk xUnroll y3d).

Definition calculateHole2D (params : PipeParameters) : list Point2D.t :=
  for_each (upto steps)
    (fun i => GeometryEngine.push_sample (hole2DBody params i)) [].

Definition getHeader : string := lines ["0"; "SECTION"; "2"; "ENTITIES"]%string.
Definition getFooter : string := lines ["0"; "ENDSEC"; "0"; "EOF"]%string.
Definition getPolyline (closed : bool) : string :=
  lines ["0"; "POLYLINE"; "8"; "0"; "66"; "1"; "70";
         if closed then "1" else "0"]%string.
Definition getVertex (x y : number) : string :=
  lines ["0"; "VERTEX"; "8"; "0"; "10"; toFixed x 4; "20"; toFixed y 4;
         "30"; "0.0"]%string.
Definition getSeqEnd : string := lines ["0"; "SEQEND"]%string.

(** The geometry [generateDXF] serializes, or [None] where it returns
    the empty string before computing any.  For ['pipe'] the contour of
    [calculateNotchGeometry], shifted by [startAngle], is assigned to
    [points] and overwritten by [calculatePipe2D(params)] at once: only
    the validity of the mesh is kept of it. *)
Definition recomputePoints (type : TemplateType) (params : PipeParameters)
  : option (list Point2D.t) :=
  match type with
  | pipe =>
      let result := GeometryEngine.calculateNotchGeometry params 360 in
      if negb (GeometryEngine.isValid result)
         || match GeometryEngine.contour2D result with
            | None => true
            | Some _ => false
            end
      then None
      else Some (calculatePipe2D params)
  | hole => Some (calculateHole2D params)
  end.

(** [shiftedPoints]: the pipe contour is flipped, the hole contour
    shifted. *)
Definition shiftPoints (type : TemplateType) (pad : number)
    (points : list Point2D.t) : list Point2D.t :=
  match type with
  | pipe =>
      let maxY := Math.max (map Point2D.y points) in
      map (fun p => Point2D.mk (Point2D.x p) (maxY - Point2D.y p + pad)) points
  | hole =>
      let minY := Math.min (map Point2D.y points) in
      map (fun p => Point2D.mk (Point2D.x p) (Point2D.y p - minY + pad)) points
  end.

(** The assembly of the stream, from [let dxf = getHeader()] on. *)
Definition assemble (type : TemplateType) (params : PipeParameters)
    (pad : number) (shiftedPoints : list Point2D.t) : string :=
  let dxf := getHeader in
  let dxf := dxf ^^ getPolyline (match type with hole => true | pipe => false end) in
  let dxf :=
    for_each shiftedPoints
      (fun p dxf => dxf ^^ getVertex (Point2D.x p) (Point2D.y p)) dxf in
  let dxf :=
    match type with
    | pipe =>
        let lastX := Point2D.x (last shiftedPoints (Point2D.mk NaN NaN)) in
        (dxf ^^ getVertex lastX 0) ^^ getVertex 0 0
    | hole => dxf
    end in
  let dxf := dxf ^^ getSeqEnd in
  let dxf :=
    match type with
    | hole =>
        let maxY := Math.max (map Point2D.y shiftedPoints) + pad in
        let maxX := Math.PI * d1 params in
        ((((dxf ^^ getPolyline true)
           ^^ getVertex 0 0) ^^ getVertex maxX 0) ^^ getVertex maxX maxY)
          ^^ getVertex 0 maxY ^^ getSeqEnd
    | pipe => dxf
    end in
  dxf ^^ getFooter.

Definition generateDXF (type : TemplateType) (params : PipeParameters) : string :=
  let pad := JS.or (match type with
                    | pipe => paddingD2 params
                    | hole => paddingD1 params
                    end) 0 in
  match recomputePoints type params with
  | None => EmptyString
  | Some points =>
      if Nat.eqb (List.length points) 0 then EmptyString
      else assemble type params pad (shiftPoints type pad points)
  end.

End Service.
End DxfService.

(* ================================================================== *)
(** * dxf-writer.ts *)
(* ================================================================== *)

Module DxfWriter.
Local Open Scope R_scope.
Local Open Scope js_scope.

Section Writer.

(** [n.toFixed(digits)], the decimal rendering of a number. *)
Variable toFixed : number -> nat -> string.

(** The writer is its array [parts]. *)
Definition t : Type := list string.

Definition addHeader (parts : t) : t :=
  parts ++ [lines ["0"; "SECTION"; "2"; "ENTITIES"]%string].

(** [new DxfWriter()]. *)
Definition create : t := addHeader [].

(** The [VERTEX] record both pushes of [addPolyline] write. *)
Definition vertexRecord (p : Point2D.t) : string :=
  lines ["0"; "VERTEX"; "8"; "0"; "10"; toFixed (Point2D.x p) 4;
         "20"; toFixed (Point2D.y p) 4; "30"; "0.0"]%string.

Definition polylineStart (closed : bool) : string :=
  lines ["0"; "POLYLINE"; "8"; "0"; "66"; "1"; "70";
         if closed then "1" else "0"]%string.

Definition seqEnd : string := lines ["0"; "SEQEND"]%string.

(** [dist] of the loop-closing check. *)
Definition closingDistance (first last : Point2D.t) : number :=
  Math.sqrt (Math.pow (Point2D.x first - Point2D.x last) 2
             + Math.pow (Point2D.y first - Point2D.y last) 2).

Definition addPolyline (points : list Point2D.t) (closed : bool) (parts : t) : t :=
  match points with
  | [] => parts
  | first :: _ =>
      let parts := parts ++ [polylineStart closed] in
      let parts := for_each points (fun p parts => parts ++ [vertexRecord p]) parts in
      let parts :=
        if closed then
          let last := List.last points first in
          let dist := closingDistance first last in
          if dist >? 0.001 then parts ++ [vertexRecord first] else parts
        else parts in
      parts ++ [seqEnd]
  end.

(** [addLine]; the colour index is a small natural number. *)
Definition addLine (p1 p2 : Point2D.t) (colorIndex : nat) (parts : t) : t :=
  let parts := parts ++ [lines ["0"; "LINE"; "8"; "CenterLines"]%string] in
  let parts :=
    if Nat.ltb 0 colorIndex
    then parts ++ [lines ["62"%string;
                          DecimalString.NilEmpty.string_of_uint (Nat.to_uint colorIndex)]]
    else parts in
  let parts :=
    parts ++ [lines ["10"; toFixed (Point2D.x p1) 4; "20"; toFixed (Point2D.y p1) 4;
                     "30"; "0.0"]%string] in
  parts ++ [lines ["11"; toFixed (Point2D.x p2) 4; "21"; toFixed (Point2D.y p2) 4;
                   "31"; "0.0"]%string].

Definition addRectangle (minX minY maxX maxY : number) (parts : t) : t :=
  addPolyline
    [Point2D.mk minX minY; Point2D.mk maxX minY; Point2D.mk maxX maxY;
     Point2D.mk minX maxY; Point2D.mk minX minY]
    true parts.

Definition footer : string := lines ["0"; "ENDSEC"; "0"; "EOF"]%string.

Definition createString (parts : t) : string :=
  join (parts ++ [footer]).

Definition createDxfString (points : list Point2D.t) (closed : bool) : string :=
  createString (addPolyline points closed create).

End Writer.
End DxfWriter.

(* ================================================================== *)
(** * The depth solver, in the words of the specification *)
(* ================================================================== *)

(** Sections 4.1 to 4.3 of the specification, with the two radii they
    speak of kept apart: [R2_effective], the radius the intersection
    term is computed with, and [R2_draw], the radius of the drawn
    geometry. *)
Module DepthSolver.
Import MathUtils.
Local Open Scope R_scope.
Local Open Scope js_scope.

Definition R2_outer (p : PipeParameters) : number := d2 p / 2.
Definition R2_inner (p : PipeParameters) : number := R2_outer p - thickness p.

(** "[R2_effective] is chosen per [calcByID]: [R2_outer = d2/2] when
    true, [R2_inner = R2_outer - thickness] when false." *)
Definition R2_effective (p : PipeParameters) : number :=
  if calcByID p then R2_outer p else R2_inner p.

(** [term = R1^2 - (R2_effective * sin(effAngle) + offset)^2]. *)
Definition term (R1 R2_effective offset effAngle : number) : number :=
  Math.pow R1 2 - Math.pow (R2_effective * Math.sin effAngle + offset) 2.

(** [depth = (1/sin(angleRad)) * sqrt(term)
             + (R2_draw * cos(effAngle) / tan(angleRad)) - weldingGap],
    [sin] and [tan] of the angle through [safeSmall]. *)
Definition depth (R2_draw angleRad weldingGap term effAngle : number) : number :=
  (1 / safeSmall (Math.sin angleRad) epsilon_default) * Math.sqrt term
  + (R2_draw * Math.cos effAngle / safeSmall (Math.tan angleRad) epsilon_default)
  - weldingGap.

(** The depth of a contour sample: a negative [term] above [-0.1] is
    clamped to 0, any other negative [term] skips the sample (the
    comparisons are those of the program). *)
Definition contourDepth (R2_effective R2_draw : number) (p : PipeParameters)
    (effAngle : number) : option number :=
  let t := term (d1 p / 2) R2_effective (offset p) effAngle in
  if t <? 0
  then (if t >? Num (-0.1)
        then Some (depth R2_draw (degToRad (angle p)) (weldingGap p) 0 effAngle)
        else None)
  else Some (depth R2_draw (degToRad (angle p)) (weldingGap p) t effAngle).

(** Sample [i] of [steps] of the branch contour: arc length
    [x = (i/steps) * 2 * PI * R2_draw], phase [startAngleRad]. *)
Definition contourSample (R2_effective R2_draw : number) (p : PipeParameters)
    (steps i : nat) : option Point2D.t :=
  let ratio := JS.of_nat i / JS.of_nat steps in
  let effAngle := (ratio * 2 * Math.PI) + degToRad (startAngle p) in
  match contourDepth R2_effective R2_draw p effAngle with
  | Some d => Some (Point2D.mk (ratio * (2 * Math.PI * R2_draw)) d)
  | None => None
  end.

(** The depth of a mesh column: phase 0, a negative [term] clamped. *)
Definition meshDepth (R2_effective R2_draw : number) (p : PipeParameters)
    (alpha : number) : number :=
  let t := term (d1 p / 2) R2_effective (offset p) alpha in
  depth R2_draw (degToRad (angle p)) (weldingGap p) (if t <? 0 then Num 0 else t) alpha.

(** [P = localX * u + localY * v + len * w] for the cross-section point
    [(R2_mesh * cos(alpha), R2_mesh * sin(alpha) + offset, len)], with
    [w = (sin, cos, 0)], [v = (0, 0, 1)], [u = (-cos, sin, 0)] of
    [angleRad]. *)
Definition meshPoint (R2_mesh : number) (p : PipeParameters) (len alpha : number)
  : list number :=
  let theta := degToRad (angle p) in
  let localX := R2_mesh * Math.cos alpha in
  let localY := R2_mesh * Math.sin alpha + offset p in
  [ (localX * (- Math.cos theta)) + (localY * 0) + (len * Math.sin theta);
    (localX * Math.sin theta) + (localY * 0) + (len * Math.cos theta);
    (localX * 0) + (localY * 1) + (len * 0) ].

End DepthSolver.

(* ================================================================== *)
(** * Finite parameters *)
(* ================================================================== *)

(** The fields of [PipeParameters] are lengths in millimetres and angles
    in degrees: the quantitative properties below are stated for finite
    values of the fields the geometry is computed from. *)
Definition isFinite (x : number) : bool :=
  match x with Num _ => true | _ => false end.

Definition finiteDimensions (p : PipeParameters) : bool :=
  isFinite (d1 p) && isFinite (d2 p) && isFinite (thickness p)
  && isFinite (angle p) && isFinite (offset p) && isFinite (weldingGap p)
  && isFinite (startAngle p).

(** A padding is finite, or missing: a missing field reads as
    [undefined], which [|| 0] replaces like [NaN]. *)
Definition finiteOrMissing (x : number) : bool :=
  match x with Num _ | NaN => true | _ => false end.

(** The real number a finite [number] stands for. *)
Definition toR (x : number) : R :=
  match x with Num r => r | _ => 0%R end.

(** The parameters of the test suite ([baseParams] of
    [geometry.test.ts], Scenario A of the specification). *)
Definition scenarioA : PipeParameters :=
  {| d1 := Num 100; d2 := Num 50; thickness := Num 5; angle := Num 90;
     offset := Num 0; weldingGap := Num 0; startAngle := Num 0;
     paddingD1 := Num 20; paddingD2 := Num 20; calcByID := true |}.

(** Scenario C: the same with [offset = 60]. *)
Definition scenarioC : PipeParameters :=
  {| d1 := Num 100; d2 := Num 50; thickness := Num 5; angle := Num 90;
     offset := Num 60; weldingGap := Num 0; startAngle := Num 0;
     paddingD1 := Num 20; paddingD2 := Num 20; calcByID := true |}.

(** Scenario A with a main pipe of infinite diameter. *)
Definition scenarioInfinite : PipeParameters :=
  {| d1 := Infinity; d2 := Num 50; thickness := Num 5; angle := Num 90;
     offset := Num 0; weldingGap := Num 0; startAngle := Num 0;
     paddingD1 := Num 20; paddingD2 := Num 20; calcByID := true |}.

(** Scenario A with an infinite welding gap. *)
Definition scenarioInfiniteGap : PipeParameters :=
  {| d1 := Num 100; d2 := Num 50; thickness := Num 5; angle := Num 90;
     offset := Num 0; weldingGap := Infinity; startAngle := Num 0;
     paddingD1 := Num 20; paddingD2 := Num 20; calcByID := true |}.

(** A diameter the guard of [calculateNotchGeometry] turns down: [NaN]
    (which is also how a missing field reads: [!undefined] is true and
    every operator converts [undefined] to [NaN]), zero, or negative. *)
Definition rejectedDiameter (d : number) : bool :=
  JS.isNaN d || JS.le d (Num 0).

(** Two parameter records that differ at most in [calcByID]. *)
Definition sameExceptCalcByID (p q : PipeParameters) : Prop :=
  d1 p = d1 q /\ d2 p = d2 q /\ thickness p = thickness q
  /\ angle p = angle q /\ offset p = offset q /\ weldingGap p = weldingGap q
  /\ startAngle p = startAngle q
  /\ paddingD1 p = paddingD1 q /\ paddingD2 p = paddingD2 q.

(** Scenario A with the flag cleared. *)
Definition scenarioA_byOD : PipeParameters :=
  {| d1 := Num 100; d2 := Num 50; thickness := Num 5; angle := Num 90;
     offset := Num 0; weldingGap := Num 0; startAngle := Num 0;
     paddingD1 := Num 20; paddingD2 := Num 20; calcByID := false |}.

(** A part of the writer that is a [VERTEX] record. *)
Definition isVertexRecord (part : string) : bool :=
  String.prefix (lines ["0"; "VERTEX"]%string) part.

(** The Euclidean distance of two points. *)
Definition euclideanDistance (a b : Point2D.t) : number :=
  Math.sqrt (JS.add
               (JS.mul (JS.sub (Point2D.x a) (Point2D.x b))
                       (JS.sub (Point2D.x a) (Point2D.x b)))
               (JS.mul (JS.sub (Point2D.y a) (Point2D.y b))
                       (JS.sub (Point2D.y a) (Point2D.y b)))).

(** The number of [VERTEX] records among the parts of a writer. *)
Definition vertexCount (parts : list string) : nat :=
  List.length (filter isVertexRecord parts).

(** [s.startsWith(pre)] and [s.endsWith(suf)]. *)
Definition startsWith (s pre : string) : Prop := exists rest, s = pre ^^ rest.
Definition endsWith (s suf : string) : Prop := exists front, s = front ^^ suf.

(** The 2D points [generateDXF] recomputes for a template kind. *)
Definition recomputed2D (type : TemplateType) (params : PipeParameters)
  : list Point2D.t :=
  match type with
  | pipe => DxfService.calculatePipe2D params
  | hole => DxfService.calculateHole2D params
  end.

(** The geometry [generateDXF] needs is unavailable: for ['pipe'] the
    mesh is invalid or has no contour; for either kind no 2D point is
    left. *)
Definition geometryUnavailable (type : TemplateType) (params : PipeParameters)
  : Prop :=
  (type = pipe
   /\ (GeometryEngine.isValid (GeometryEngine.calculateNotchGeometry params 360) = false
       \/ GeometryEngine.contour2D (GeometryEngine.calculateNotchGeometry params 360) = None))
  \/ recomputed2D type params = [].

(* ================================================================== *)
(** * The computations on finite parameters, in real numbers *)
(* ================================================================== *)

(** The real radii behind [R1] and [R2_calc]. *)
Definition rR1 (p : PipeParameters) : R := (toR (d1 p) / 2)%R.
Definition rR2_outer (p : PipeParameters) : R := (toR (d2 p) / 2)%R.
Definition rR2_inner (p : PipeParameters) : R := (toR (d2 p) / 2 - toR (thickness p))%R.
Definition rR2_calc (p : PipeParameters) : R :=
  if calcByID p then rR2_outer p else rR2_inner p.

(** The real angle of mesh column [x]. *)
Definition rAlpha (segments x : nat) : R := (INR x / INR segments * 2 * PI)%R.

(** The real [term] of mesh column [x]. *)
Definition rTerm (p : PipeParameters) (off a : R) : R :=
  (rR1 p * rR1 p - (rR2_calc p * sin a + off) * (rR2_calc p * sin a + off))%R.

(** The points a body contributes. *)
Definition kept (sample : option Point2D.t) : list Point2D.t :=
  match sample with Some p => [p] | None => [] end.

(** [safeSmall(v)] on a real number, with the default [epsilon]. *)
Definition rSafeSmall (v : R) : R :=
  if Rltb (Rabs v) 1e-6 then (if Rleb 0 v then 1e-6 else - (1e-6))%R else v.

Definition rAngleRad (p : PipeParameters) : R := (toR (angle p) * PI / 180)%R.
Definition rStartAngleRad (p : PipeParameters) : R :=
  (toR (startAngle p) * PI / 180)%R.

(** [sT], and the factor a division by [tT] multiplies with: [tT] is an
    infinity where the tangent has a pole, and dividing by it gives 0. *)
Definition rsT (p : PipeParameters) : R := rSafeSmall (sin (rAngleRad p)).
Definition rInvtT (p : PipeParameters) : R :=
  if Reqb (cos (rAngleRad p)) 0 then 0%R
  else (/ rSafeSmall (sin (rAngleRad p) / cos (rAngleRad p)))%R.

(** The depth formula for a clamped [term] [t] at angle [a]. *)
Definition rDepth (p : PipeParameters) (t a : R) : R :=
  (1 / rsT p * sqrt t + rR2_outer p * cos a * rInvtT p - toR (weldingGap p))%R.

(** [lengthToTouch] at a finite angle. *)
Definition rLengthToTouch (p : PipeParameters) (a : R) : option R :=
  let t := rTerm p (toR (offset p)) a in
  if Rltb t 0
  then (if Rltb (-0.1) t then Some (rDepth p 0 a) else None)
  else Some (rDepth p t a).


(** The sample loop body of [calculateUnrolledPoints] for a template
    kind, and the padding it normalizes to. *)
Definition unrolledBody (type : TemplateType) (p : PipeParameters) (i : nat)
  : option Point2D.t :=
  match type with
  | pipe => GeometryEngine.pipe2DBody p 360 i
  | hole => GeometryEngine.hole2DBody p 360 i
  end.

Definition unrolledPadding (type : TemplateType) (p : PipeParameters) : number :=
  JS.or (match type with pipe => paddingD2 p | hole => paddingD1 p end) (Num 0).

(** The points the sample loop of [calculateUnrolledPoints] has pushed
    when the normalization starts. *)
Definition unrolledRaw (type : TemplateType) (p : PipeParameters) : list Point2D.t :=
  match type with
  | pipe => GeometryEngine.pipe2DRaw p 360
  | hole => GeometryEngine.hole2DRaw p 360
  end.

(** The parameters with another [calcByID]. *)
Definition withCalcByID (p : PipeParameters) (b : bool) : PipeParameters :=
  {| d1 := d1 p; d2 := d2 p; thickness := thickness p; angle := angle p;
     offset := offset p; weldingGap := weldingGap p; startAngle := startAngle p;
     paddingD1 := paddingD1 p; paddingD2 := paddingD2 p; calcByID := b |}.

(** A thick-walled branch cut by its inner diameter, the template
    rotated by a quarter turn: [R1 = 25], [R2_outer = 24], [R2_inner = 20]. *)
Definition thickWalled : PipeParameters :=
  {| d1 := Num 50; d2 := Num 48; thickness := Num 4; angle := Num 90;
     offset := Num 0; weldingGap := Num 0; startAngle := Num 90;
     paddingD1 := Num 0; paddingD2 := Num 0; calcByID := false |}.

(* ================================================================== *)
(** * features/viewer: SeamLine.tsx and BranchPipe.tsx *)
(* ================================================================== *)

Module SeamLine.

Definition segmentCount : nat := 128.

(** What the memo of the component holds: [{ points: null, isValid:
    false }], the seam points, or nothing at all because reading [v.x]
    of an [undefined] vertex threw a [TypeError]. *)
Inductive Memo : Type :=
| Hidden
| Seam (points : list Point3D.t)
| Thrown.

(** [for (let i = 0; i <= segmentCount; i++) { const v = vertices[i];
    seamPoints.push(new THREE.Vector3(v.x, v.y, v.z)); }]; [None] once
    a read went past the end. *)
Definition extractSeam (vertices : list Point3D.t) : option (list Point3D.t) :=
  for_each (upto segmentCount)
    (fun i acc =>
       match acc, nth_error vertices i with
       | Some seamPoints, Some v =>
           Some (seamPoints ++ [Point3D.mk (Point3D.x v) (Point3D.y v) (Point3D.z v)])
       | _, _ => None
       end)
    (Some []).

Definition memo (params : PipeParameters) : Memo :=
  let result := GeometryEngine.calculateNotchGeometry params 128 in
  if negb (GeometryEngine.isValid result) then Hidden
  else match extractSeam (GeometryEngine.vertices result) with
       | Some seamPoints => Seam seamPoints
       | None => Thrown
       end.

End SeamLine.

Module BranchPipe.

Section Buffers.

(** The rounding a store into a [Float32Array] applies. *)
Variable fround : number -> number.

(** [positions[k] = v] on a typed array: a write past the end is
    ignored. *)
Fixpoint store (k : nat) (v : number) (positions : list number) : list number :=
  match positions, k with
  | [], _ => []
  | _ :: rest, O => fround v :: rest
  | a :: rest, S k' => a :: store k' v rest
  end.

(** [new Float32Array(n)]: [n] zeros. *)
Definition zeros (n : nat) : list number := repeat (Num 0) n.

(** [vertices.forEach((v, i) => ...)] visits the elements with their
    indices. *)
Definition indexed {A : Type} (xs : list A) : list (A * nat) :=
  combine xs (seq 0 (List.length xs)).

(** [const positions = new Float32Array(result.vertices.length * 3);
    result.vertices.forEach((v, i) => { positions[i * 3] = v.x; ... })]. *)
Definition positionsOf (vertices : list Point3D.t) : list number :=
  for_each (indexed vertices)
    (fun vi positions =>
       let v := fst vi in
       let i := snd vi in
       store (i * 3 + 2) (Point3D.z v)
         (store (i * 3 + 1) (Point3D.y v)
            (store (i * 3) (Point3D.x v) positions)))
    (zeros (List.length vertices * 3)).

End Buffers.

(** [error || "Unknown Error"]: an absent or empty message is falsy. *)
Definition orUnknown (error : option string) : string :=
  match error with
  | Some (String c rest) => String c rest
  | _ => "Unknown Error"
  end.

(** [newError] of the effect: [isValid ? null : (error || "Unknown
    Error")], on the [isValid] and [error] the memo took from
    [calculateNotchGeometry(params, 128)]. *)
Definition newError (params : PipeParameters) : option string :=
  let result := GeometryEngine.calculateNotchGeometry params 128 in
  if GeometryEngine.isValid result then None
  else Some (orUnknown (GeometryEngine.error result)).

End BranchPipe.

(* ================================================================== *)
(** * features/controls/Sidebar.tsx and components/ui/DebouncedInput.tsx *)
(* ================================================================== *)

Module Sidebar.
Local Open Scope R_scope.
Local Open Scope js_scope.

(** The memo [maxOffset]. *)
Definition maxOffset (d1 d2 thickness : number) (calcByID : bool) : number :=
  let R1 := d1 / 2 in
  let R2_outer := d2 / 2 in
  let R2_inner := R2_outer - thickness in
  let R2_calc := Math.max2 0 (if calcByID then R2_outer else R2_inner) in
  let max := R1 - R2_calc in
  if negb (isFinite max) then Num 0
  else Math.max2 0 max.

(** [clamped] of the offset field:
    [Math.max(-maxOffset, Math.min(maxOffset, val))]. *)
Definition clampOffset (maxOffset val : number) : number :=
  Math.max2 (- maxOffset) (Math.min2 maxOffset val).

End Sidebar.

Module DebouncedInput.
Local Open Scope js_scope.

(** The timer callback, from [parsed] on: the value it passes to
    [onChange], if any.  [min] and [max] are optional properties. *)
Definition commit (parsed value : number) (min max : option number)
  : option number :=
  if JS.isNaN parsed then None
  else if parsed === value then None
  else if match min with Some m => parsed <? m | None => false end then None
  else if match max with Some m => parsed >? m | None => false end then None
  else Some parsed.

End DebouncedInput.

(* ================================================================== *)
(** * hooks/useDownloadAction.ts *)
(* ================================================================== *)

(** [minX], [maxX], [minY], [maxY] of the bounds loop that
    [useDownloadAction.ts] and [pdf-generator.ts] both have. *)
Record Bounds : Type := {
  minX : number;
  maxX : number;
  minY : number;
  maxY : number
}.

(** [let minX = Infinity, maxX = -Infinity, minY = Infinity, maxY =
    -Infinity; points.forEach(p => { if (p.x < minX) minX = p.x; ... })]. *)
Definition boundsOf (points : list Point2D.t) : Bounds :=
  for_each points
    (fun p b =>
       {| minX := if JS.lt (Point2D.x p) (minX b) then Point2D.x p else minX b;
          maxX := if JS.gt (Point2D.x p) (maxX b) then Point2D.x p else maxX b;
          minY := if JS.lt (Point2D.y p) (minY b) then Point2D.y p else minY b;
          maxY := if JS.gt (Point2D.y p) (maxY b) then Point2D.y p else maxY b |})
    {| minX := Infinity; maxX := NegInfinity; minY := Infinity; maxY := NegInfinity |}.

(** A point with two finite coordinates. *)
Definition finitePoint (p : Point2D.t) : bool :=
  isFinite (Point2D.x p) && isFinite (Point2D.y p).

Module DownloadAction.
Local Open Scope R_scope.
Local Open Scope js_scope.

Section Download.

(** [n.toFixed(digits)], the decimal rendering of a number. *)
Variable toFixed : number -> nat -> string.

(** [finalPoints]; it is only computed for a non-empty [points]. *)
Definition finalPoints (type : TemplateType) (points : list Point2D.t)
  : list Point2D.t :=
  match type with
  | pipe =>
      let maxX := Point2D.x (List.last points (Point2D.mk NaN NaN)) in
      [Point2D.mk 0 0] ++ points ++ [Point2D.mk maxX 0; Point2D.mk 0 0]
  | hole => points
  end.

(** The parts of the writer whose string is downloaded. *)
Definition dxfParts (type : TemplateType) (points : list Point2D.t) : DxfWriter.t :=
  let closed := true in
  let finalPoints := finalPoints type points in
  match type with
  | hole =>
      let b := boundsOf finalPoints in
      let centerX := (minX b + maxX b) / 2 in
      let centerY := (minY b + maxY b) / 2 in
      let writer := DxfWriter.create in
      let writer := DxfWriter.addPolyline toFixed finalPoints closed writer in
      let writer :=
        DxfWriter.addLine toFixed (Point2D.mk centerX (minY b))
          (Point2D.mk centerX (maxY b)) 1 writer in
      DxfWriter.addLine toFixed (Point2D.mk (minX b) centerY)
        (Point2D.mk (maxX b) centerY) 1 writer
  | pipe => DxfWriter.addPolyline toFixed finalPoints closed DxfWriter.create
  end.

Definition dxfString (type : TemplateType) (points : list Point2D.t) : string :=
  DxfWriter.createString (dxfParts type points).

(** [download(type, 'dxf')], up to the string handed to the [Blob];
    [None] is the alert "Could not generate valid geometry for export.". *)
Definition download (type : TemplateType) (params : PipeParameters)
  : option string :=
  let points := GeometryEngine.calculateUnrolledPoints params type in
  if Nat.eqb (List.length points) 0 then None
  else Some (dxfString type points).

End Download.
End DownloadAction.

(* ================================================================== *)
(** * pdf-generator.ts: the page and the lines drawn on it *)
(* ================================================================== *)

Module PdfGenerator.
Local Open Scope R_scope.
Local Open Scope js_scope.

Definition marginLeft : number := 12.
Definition marginRight : number := 12.
Definition marginTop : number := 8.
Definition marginBottom : number := 12.

Definition contentWidth (b : Bounds) : number := maxX b - minX b.
Definition contentHeight (b : Bounds) : number := maxY b.
Definition pageW (b : Bounds) : number := contentWidth b + marginLeft + marginRight.
Definition pageH (b : Bounds) : number := contentHeight b + marginTop + marginBottom.

(** ['l'] (landscape) or ['p']. *)
Definition orientation (b : Bounds) : string :=
  if pageW b >? pageH b then "l" else "p".

Definition originX (b : Bounds) : number := marginLeft - minX b.
Definition originY (b : Bounds) : number := pageH b - marginBottom.

Definition toPage (b : Bounds) (x y : number) : Point2D.t :=
  Point2D.mk (originX b + x) (originY b - y).

(** A call [pdf.line(x1, y1, x2, y2)]. *)
Record Line : Type := { x1 : number; y1 : number; x2 : number; y2 : number }.

Definition lineBetween (a b : Point2D.t) : Line :=
  {| x1 := Point2D.x a; y1 := Point2D.y a; x2 := Point2D.x b; y2 := Point2D.y b |}.

(** [points[i]] inside a loop that stays in range. *)
Definition point_at (points : list Point2D.t) (i : nat) : Point2D.t :=
  nth i points (Point2D.mk NaN NaN).

(** Section 6: the curve, [for (let i = 0; i < points.length - 1; i++)]. *)
Definition contourLines (b : Bounds) (points : list Point2D.t) : list Line :=
  for_each (below (List.length points - 1))
    (fun i drawn =>
       let p1 := toPage b (Point2D.x (point_at points i)) (Point2D.y (point_at points i)) in
       let p2 := toPage b (Point2D.x (point_at points (i + 1)))
                          (Point2D.y (point_at points (i + 1))) in
       drawn ++ [lineBetween p1 p2])
    [].

(** Section 6, continued: the sheet edges of the pipe template, the
    closing segment of the hole. *)
Definition closingLines (type : TemplateType) (b : Bounds) (points : list Point2D.t)
  : list Line :=
  let first := point_at points 0 in
  let last := point_at points (List.length points - 1) in
  match type with
  | pipe =>
      let bl := toPage b (minX b) 0 in
      let br := toPage b (maxX b) 0 in
      let tl := toPage b (minX b) (Point2D.y first) in
      let tr := toPage b (maxX b) (Point2D.y last) in
      [lineBetween bl br; lineBetween bl tl; lineBetween br tr]
  | hole =>
      let pFirst := toPage b (Point2D.x first) (Point2D.y first) in
      let pLast := toPage b (Point2D.x last) (Point2D.y last) in
      [lineBetween pLast pFirst]
  end.

(** Section 7: the red crosshair of the hole. *)
Definition crosshairLines (type : TemplateType) (b : Bounds) : list Line :=
  match type with
  | hole =>
      let centerX := (minX b + maxX b) / 2 in
      let centerY := (minY b + maxY b) / 2 in
      [lineBetween (toPage b centerX (minY b)) (toPage b centerX (maxY b));
       lineBetween (toPage b (minX b) centerY) (toPage b (maxX b) centerY)]
  | pipe => []
  end.

(** [tickH] of the whole-degree tick at [deg]. *)
Definition tickH (deg : nat) : number :=
  if Nat.eqb (deg mod 10) 0 then 4
  else if Nat.eqb (deg mod 5) 0 then 2.5
  else if Nat.eqb (deg mod 1) 0 then 1.5
  else 1.

(** The tick [pdf.line(pBase, pTop)] at [deg] degrees, of height [h]. *)
Definition tick (b : Bounds) (deg h : number) : Line :=
  let x := minX b + (deg / 360) * (maxX b - minX b) in
  lineBetween (toPage b x 0) (toPage b x h).

(** Section 9: the ruler of the pipe template, [for (let deg = 0; deg <=
    360; deg += 1)] and then [for (let deg = 0.5; deg < 360; deg += 1)]. *)
Definition rulerLines (type : TemplateType) (b : Bounds) : list Line :=
  match type with
  | pipe =>
      let drawn :=
        for_each (upto 360)
          (fun deg drawn => drawn ++ [tick b (JS.of_nat deg) (tickH deg)]) [] in
      for_each (below 360)
        (fun k drawn => drawn ++ [tick b (JS.of_nat k + 0.5) 1]) drawn
  | hole => []
  end.

(** Every [pdf.line] of [generatePdf], in order, given the points;
    [None] is the alert "No geometry to export.". *)
Definition linesFor (type : TemplateType) (points : list Point2D.t)
  : option (list Line) :=
  if Nat.eqb (List.length points) 0 then None
  else
    let b := boundsOf points in
    Some (contourLines b points ++ closingLines type b points
          ++ crosshairLines type b ++ rulerLines type b).

Definition generatePdfLines (params : PipeParameters) (type : TemplateType)
  : option (list Line) :=
  linesFor type (GeometryEngine.calculateUnrolledPoints params type).

End PdfGenerator.

(* ================================================================== *)
(** * dxf-writer.ts: a writer and its callers *)
(* ================================================================== *)

Module DxfWriterCalls.

(** A call of one of the public methods that push parts. *)
Inductive Call : Type :=
| AddPolyline (points : list Point2D.t) (closed : bool)
| AddLine (p1 p2 : Point2D.t) (colorIndex : nat)
| AddRectangle (x0 y0 x1 y1 : number).

Section Calls.

Variable toFixed : number -> nat -> string.

Definition call (c : Call) (parts : DxfWriter.t) : DxfWriter.t :=
  match c with
  | AddPolyline points closed => DxfWriter.addPolyline toFixed points closed parts
  | AddLine p1 p2 colorIndex => DxfWriter.addLine toFixed p1 p2 colorIndex parts
  | AddRectangle x0 y0 x1 y1 => DxfWriter.addRectangle toFixed x0 y0 x1 y1 parts
  end.

(** [new DxfWriter()] and then the calls, in order. *)
Definition run (calls : list Call) : DxfWriter.t :=
  for_each calls call DxfWriter.create.

End Calls.
End DxfWriterCalls.

(* ================================================================== *)
(** * Properties *)
(* ================================================================== *)

Import GeometryEngine.

(** ** Comparisons of reals as booleans *)

Lemma Rltb_true (a b : R) : (a < b)%R -> Rltb a b = true.
Proof. intros H. unfold Rltb. destruct (Rlt_dec a b); [reflexivity | contradiction]. Qed.

Lemma Rltb_false (a b : R) : (~ a < b)%R -> Rltb a b = false.
Proof. intros H. unfold Rltb. destruct (Rlt_dec a b); [contradiction | reflexivity]. Qed.

Lemma Rltb_iff (a b : R) : Rltb a b = true <-> (a < b)%R.
Proof. unfold Rltb. destruct (Rlt_dec a b); split; intros; (assumption || reflexivity || discriminate || contradiction). Qed.

Lemma Rleb_true (a b : R) : (a <= b)%R -> Rleb a b = true.
Proof. intros H. unfold Rleb. destruct (Rle_dec a b); [reflexivity | contradiction]. Qed.

Lemma Rleb_false (a b : R) : (~ a <= b)%R -> Rleb a b = false.
Proof. intros H. unfold Rleb. destruct (Rle_dec a b); [contradiction | reflexivity]. Qed.

Lemma Rleb_iff (a b : R) : Rleb a b = true <-> (a <= b)%R.
Proof. unfold Rleb. destruct (Rle_dec a b); split; intros; (assumption || reflexivity || discriminate || contradiction). Qed.


Lemma Reqb_false (a b : R) : a <> b -> Reqb a b = false.
Proof. intros H. unfold Reqb. destruct (Req_dec_T a b); [contradiction | reflexivity]. Qed.

Lemma Reqb_iff (a b : R) : Reqb a b = true <-> a = b.
Proof. unfold Reqb. destruct (Req_dec_T a b); split; intros; (assumption || reflexivity || discriminate || contradiction). Qed.

(** Decide every comparison of reals in the goal and the hypotheses,
    closing the branches linear arithmetic refutes. *)
Ltac rcases_step :=
  unfold Rltb, Rleb, Reqb in *;
  match goal with
  | |- context [Rlt_dec ?a ?b] => destruct (Rlt_dec a b)
  | |- context [Rle_dec ?a ?b] => destruct (Rle_dec a b)
  | |- context [Req_dec_T ?a ?b] => destruct (Req_dec_T a b)
  | H : context [Rlt_dec ?a ?b] |- _ => destruct (Rlt_dec a b)
  | H : context [Rle_dec ?a ?b] |- _ => destruct (Rle_dec a b)
  | H : context [Req_dec_T ?a ?b] |- _ => destruct (Req_dec_T a b)
  end;
  simpl in *; try lra.

Ltac rcases := repeat rcases_step; simpl in *; try congruence; try lra.

(** ** Order facts on [number] *)

Lemma le_not_gt (a b : number) : JS.le a b = true -> JS.lt b a = false.
Proof. destruct a, b; simpl; intros H; try reflexivity; try discriminate; rcases. Qed.

(** ** Loops *)

Lemma for_each_cons {A S : Type} (a : A) (xs : list A) (body : A -> S -> S) (s : S) :
  for_each (a :: xs) body s = for_each xs body (body a s).
Proof. reflexivity. Qed.

(** A loop whose body grows a measure by [k] at every iteration. *)
Lemma for_each_measure {A S : Type} (m : S -> nat) (k : nat)
    (body : A -> S -> S) (xs : list A) :
  (forall a s, m (body a s) = m s + k) ->
  forall s, m (for_each xs body s) = m s + k * List.length xs.
Proof.
  intros Hstep. induction xs as [|a xs IH]; intros s.
  - simpl. lia.
  - rewrite for_each_cons, IH, Hstep. simpl. lia.
Qed.

Lemma upto_length (n : nat) : List.length (upto n) = S n.
Proof. unfold upto. apply length_seq. Qed.

Lemma below_length (n : nat) : List.length (below n) = n.
Proof. unfold below. apply length_seq. Qed.

Lemma in_upto (n x : nat) : In x (upto n) <-> x <= n.
Proof. unfold upto. rewrite in_seq. lia. Qed.

(** ** The mesh *)

Lemma meshBody_vertices params segments y x st :
  List.length (buf_vertices (meshBody params segments y x st))
  = List.length (buf_vertices st) + 3.
Proof. unfold meshBody. simpl. rewrite length_app. reflexivity. Qed.

Lemma meshLoop_vertices params segments :
  List.length (buf_vertices (meshLoop params segments)) = 6 * (segments + 1).
Proof.
  unfold meshLoop.
  rewrite (for_each_measure (fun st => List.length (buf_vertices st)) (3 * S segments)).
  - rewrite upto_length. simpl. lia.
  - intros y st.
    rewrite (for_each_measure (fun st => List.length (buf_vertices st)) 3).
    + rewrite upto_length. lia.
    + intros. apply meshBody_vertices.
Qed.

Lemma structuredVertices_length (vs : list number) :
  List.length (structuredVertices vs) = (List.length vs + 2) / 3.
Proof.
  unfold structuredVertices.
  rewrite (for_each_measure (@List.length Point3D.t) 1).
  - unfold strides3. rewrite length_map, below_length. simpl. lia.
  - intros. rewrite length_app. reflexivity.
Qed.

Lemma indexLoop_length (segments : nat) :
  List.length (indexLoop segments) = 6 * segments.
Proof.
  unfold indexLoop.
  rewrite (for_each_measure (@List.length nat) 6).
  - rewrite below_length. reflexivity.
  - intros. rewrite !length_app. simpl. lia.
Qed.

Lemma positive_is_valid_diameter (d : number) :
  JS.lt (Num 0) d = true -> JS.not d = false /\ JS.le d (Num 0) = false /\ JS.isNaN d = false.
Proof.
  destruct d; simpl; intros H; try discriminate; repeat split; try reflexivity;
    unfold JS.not; simpl; rcases.
Qed.

Lemma invalidDiameters_positive params :
  JS.lt (Num 0) (d1 params) = true -> JS.lt (Num 0) (d2 params) = true ->
  invalidDiameters params = false.
Proof.
  intros H1 H2. unfold invalidDiameters.
  destruct (positive_is_valid_diameter _ H1) as (-> & -> & ->).
  destruct (positive_is_valid_diameter _ H2) as (-> & -> & ->).
  reflexivity.
Qed.

Lemma noIntersection_false_iff params segments :
  noIntersection params segments = false <->
  forall x, x <= segments -> JS.lt (meshTerm params segments x) (Num (-0.1)) = false.
Proof.
  unfold noIntersection. split.
  - intros H x Hx. destruct (JS.lt (meshTerm params segments x) (Num (-0.1))) eqn:E; [|reflexivity].
    assert (existsb (fun x => JS.lt (meshTerm params segments x) (Num (-0.1))) (upto segments) = true).
    { apply existsb_exists. exists x. split; [apply in_upto; exact Hx | exact E]. }
    congruence.
  - intros H. destruct (existsb _ _) eqn:E; [|reflexivity].
    apply existsb_exists in E. destruct E as (x & Hin & Hx).
    apply in_upto in Hin. rewrite (H x Hin) in Hx. discriminate.
Qed.

Lemma noIntersection_true_iff params segments :
  noIntersection params segments = true <->
  exists x, x <= segments /\ JS.lt (meshTerm params segments x) (Num (-0.1)) = true.
Proof.
  unfold noIntersection. rewrite existsb_exists. split.
  - intros (x & Hin & Hx). exists x. split; [apply in_upto; exact Hin | exact Hx].
  - intros (x & Hin & Hx). exists x. split; [apply in_upto; exact Hin | exact Hx].
Qed.

(** C1. For parameters with [d1 > 0], [d2 > 0], [0 < angle <= 90] and an
    offset for which every one of the [segments + 1] angular samples has
    [term >= -0.1], and for every [segments >= 1], [calculateNotchGeometry]
    returns a valid result with [2 * (segments + 1)] vertices and
    [6 * segments] indices. *)
Theorem C1_valid_mesh_sizes (params : PipeParameters) (segments : nat) :
  JS.lt (Num 0) (d1 params) = true ->
  JS.lt (Num 0) (d2 params) = true ->
  JS.lt (Num 0) (angle params) = true ->
  JS.le (angle params) (Num 90) = true ->
  1 <= segments ->
  (forall x, x <= segments ->
             JS.ge (meshTerm params segments x) (Num (-0.1)) = true) ->
  isValid (calculateNotchGeometry params segments) = true
  /\ List.length (vertices (calculateNotchGeometry params segments)) = 2 * (segments + 1)
  /\ List.length (indices (calculateNotchGeometry params segments)) = 6 * segments.
Proof.
  intros Hd1 Hd2 _ _ _ Hterm.
  unfold calculateNotchGeometry.
  rewrite (invalidDiameters_positive _ Hd1 Hd2).
  assert (Hno : noIntersection params segments = false).
  { apply noIntersection_false_iff. intros x Hx. apply le_not_gt. apply (Hterm x Hx). }
  rewrite Hno. simpl. repeat split.
  - rewrite structuredVertices_length, meshLoop_vertices.
    replace (6 * (segments + 1) + 2) with (2 + (2 * (segments + 1)) * 3) by lia.
    rewrite Nat.div_add by lia. simpl. lia.
  - apply indexLoop_length.
Qed.

(** ** Arithmetic on finite numbers *)

Lemma isFinite_Num (x : number) : isFinite x = true -> x = Num (toR x).
Proof. destruct x; simpl; intros H; try discriminate; reflexivity. Qed.

Lemma div_Num (a b : R) : b <> 0%R -> JS.div (Num a) (Num b) = Num (a / b).
Proof. intros H. simpl. rewrite (Reqb_false _ _ H). reflexivity. Qed.

Lemma sqrt_Num (a : R) : (0 <= a)%R -> Math.sqrt (Num a) = Num (sqrt a).
Proof. intros H. simpl. rewrite Rltb_false by lra. reflexivity. Qed.

Lemma ratio_Num (n i : nat) :
  1 <= n -> JS.div (JS.of_nat i) (JS.of_nat n) = Num (INR i / INR n).
Proof. intros H. unfold JS.of_nat. apply div_Num. apply not_0_INR. lia. Qed.

Lemma finiteDimensions_fields (p : PipeParameters) :
  finiteDimensions p = true ->
  d1 p = Num (toR (d1 p)) /\ d2 p = Num (toR (d2 p))
  /\ thickness p = Num (toR (thickness p)) /\ angle p = Num (toR (angle p))
  /\ offset p = Num (toR (offset p)) /\ weldingGap p = Num (toR (weldingGap p))
  /\ startAngle p = Num (toR (startAngle p)).
Proof.
  unfold finiteDimensions. rewrite !andb_true_iff.
  intros ((((((H1 & H2) & H3) & H4) & H5) & H6) & H7).
  repeat split; apply isFinite_Num; assumption.
Qed.

Lemma two_neq_0 : 2%R <> 0%R.
Proof. lra. Qed.

Lemma R1_finite p : finiteDimensions p = true -> R1 p = Num (rR1 p).
Proof.
  intros H. destruct (finiteDimensions_fields p H) as (E & _).
  unfold R1, rR1. rewrite E at 1. apply div_Num, two_neq_0.
Qed.

Lemma R2_outer_finite p : finiteDimensions p = true -> R2_outer p = Num (rR2_outer p).
Proof.
  intros H. destruct (finiteDimensions_fields p H) as (_ & E & _).
  unfold R2_outer, rR2_outer. rewrite E at 1. apply div_Num, two_neq_0.
Qed.

Lemma R2_inner_finite p : finiteDimensions p = true -> R2_inner p = Num (rR2_inner p).
Proof.
  intros H. destruct (finiteDimensions_fields p H) as (_ & _ & E & _).
  unfold R2_inner, rR2_inner. rewrite (R2_outer_finite p H). rewrite E at 1. reflexivity.
Qed.

Lemma R2_calc_finite p : finiteDimensions p = true -> R2_calc p = Num (rR2_calc p).
Proof.
  intros H. unfold R2_calc, rR2_calc.
  destruct (calcByID p); [apply R2_outer_finite | apply R2_inner_finite]; exact H.
Qed.

Lemma intersectionTerm_Num (r1 r2 off a : R) :
  intersectionTerm (Num r1) (Num r2) (Num off) (Num a)
  = Num (r1 * r1 - (r2 * sin a + off) * (r2 * sin a + off)).
Proof. unfold intersectionTerm. simpl. f_equal. ring. Qed.

Lemma meshAlpha_Num (segments x : nat) :
  1 <= segments -> meshAlpha segments x = Num (rAlpha segments x).
Proof. intros H. unfold meshAlpha. rewrite (ratio_Num segments x H). reflexivity. Qed.

Lemma meshTerm_finite p segments x :
  finiteDimensions p = true -> 1 <= segments ->
  meshTerm p segments x = Num (rTerm p (toR (offset p)) (rAlpha segments x)).
Proof.
  intros H Hs. destruct (finiteDimensions_fields p H) as (_ & _ & _ & _ & E & _).
  unfold meshTerm. rewrite (R1_finite p H), (R2_calc_finite p H), (meshAlpha_Num segments x Hs).
  rewrite E at 1. apply intersectionTerm_Num.
Qed.

(** The margin the specification gives as an example: with a branch
    radius [R2_calc >= 0] and [|offset| < R1 - R2_calc], no sample comes
    near the tolerance. *)
Lemma offset_margin_samples_ok p segments :
  finiteDimensions p = true -> 1 <= segments ->
  (0 <= rR2_calc p)%R ->
  (Rabs (toR (offset p)) < rR1 p - rR2_calc p)%R ->
  forall x, x <= segments ->
            JS.ge (meshTerm p segments x) (Num (-0.1)) = true.
Proof.
  intros H Hs Hr Hoff x _. rewrite (meshTerm_finite p segments x H Hs).
  unfold JS.ge. simpl. apply Rleb_true. unfold rTerm.
  pose proof (SIN_bound (rAlpha segments x)) as [Hlo Hhi].
  set (s := sin (rAlpha segments x)) in *.
  set (r2 := rR2_calc p) in *. set (r1 := rR1 p) in *. set (o := toR (offset p)) in *.
  assert (Ho : (- (r1 - r2) < o < r1 - r2)%R).
  { unfold Rabs in Hoff. destruct (Rcase_abs o); lra. }
  assert (Hb : (- r1 < r2 * s + o < r1)%R) by (split; nra).
  nra.
Qed.

Lemma scenarioA_samples_ok (segments : nat) :
  1 <= segments ->
  forall x, x <= segments ->
            JS.ge (meshTerm scenarioA segments x) (Num (-0.1)) = true.
Proof.
  intros Hs. apply offset_margin_samples_ok; [reflexivity | exact Hs | |];
    unfold rR1, rR2_calc, rR2_outer; simpl.
  - lra.
  - rewrite Rabs_R0. lra.
Qed.

Lemma C1_valid_mesh_sizes_witness :
  (forall x, x <= 128 -> JS.ge (meshTerm scenarioA 128 x) (Num (-0.1)) = true)
  /\ isValid (calculateNotchGeometry scenarioA 128) = true
  /\ List.length (vertices (calculateNotchGeometry scenarioA 128)) = 2 * (128 + 1)
  /\ List.length (indices (calculateNotchGeometry scenarioA 128)) = 6 * 128.
Proof.
  assert (Hs : 1 <= 128) by lia.
  split; [apply (scenarioA_samples_ok 128 Hs)|].
  apply (C1_valid_mesh_sizes scenarioA 128).
  - apply Rltb_true. lra.
  - apply Rltb_true. lra.
  - apply Rltb_true. lra.
  - apply Rleb_true. lra.
  - exact Hs.
  - apply (scenarioA_samples_ok 128 Hs).
Defined.

(** ** The two failures of [calculateNotchGeometry] *)

Lemma calculateNotchGeometry_invalid_diameters params segments :
  invalidDiameters params = true ->
  calculateNotchGeometry params segments = invalidResult "Invalid Diameters.".
Proof. intros H. unfold calculateNotchGeometry. rewrite H. reflexivity. Qed.

Lemma calculateNotchGeometry_no_intersection params segments :
  invalidDiameters params = false -> noIntersection params segments = true ->
  calculateNotchGeometry params segments
  = invalidResult "Geometry Error: Pipes do not intersect.".
Proof. intros H1 H2. unfold calculateNotchGeometry. rewrite H1, H2. reflexivity. Qed.

Lemma calculateNotchGeometry_valid params segments :
  invalidDiameters params = false -> noIntersection params segments = false ->
  isValid (calculateNotchGeometry params segments) = true
  /\ error (calculateNotchGeometry params segments) = None
  /\ contour2D (calculateNotchGeometry params segments)
     = Some (buf_contour2D (meshLoop params segments)).
Proof. intros H1 H2. unfold calculateNotchGeometry. rewrite H1, H2. simpl. auto. Qed.

Lemma calculateNotchGeometry_cases params segments :
  calculateNotchGeometry params segments = invalidResult "Invalid Diameters."
  \/ calculateNotchGeometry params segments
     = invalidResult "Geometry Error: Pipes do not intersect."
  \/ isValid (calculateNotchGeometry params segments) = true.
Proof.
  unfold calculateNotchGeometry.
  destruct (invalidDiameters params); [left; reflexivity|].
  destruct (noIntersection params segments); [right; left; reflexivity|].
  right; right; reflexivity.
Qed.

(** C3. An invalid result of [calculateNotchGeometry] has empty
    [vertices], [indices] and [uvs] and carries an error message;
    conversely a result that carries any geometry is valid: no partial
    mesh is returned. *)
Theorem C3_invalid_result_has_no_geometry (params : PipeParameters) (segments : nat) :
  (isValid (calculateNotchGeometry params segments) = false ->
   vertices (calculateNotchGeometry params segments) = []
   /\ indices (calculateNotchGeometry params segments) = []
   /\ uvs (calculateNotchGeometry params segments) = []
   /\ error (calculateNotchGeometry params segments) <> None)
  /\ (vertices (calculateNotchGeometry params segments) <> []
      \/ indices (calculateNotchGeometry params segments) <> []
      \/ uvs (calculateNotchGeometry params segments) <> []
      \/ contour2D (calculateNotchGeometry params segments) <> None ->
      isValid (calculateNotchGeometry params segments) = true).
Proof.
  destruct (calculateNotchGeometry_cases params segments) as [E | [E | E]];
    rewrite ?E; simpl; split; intros H;
    try (repeat split; try reflexivity; discriminate);
    try (rewrite E in H; discriminate);
    try reflexivity;
    try (destruct H as [H | [H | [H | H]]]; congruence).
Qed.

(** Scenario C of the specification: [offset = 60] misses a main pipe of
    radius [50]. *)
Lemma scenarioC_no_intersection (segments : nat) :
  1 <= segments -> noIntersection scenarioC segments = true.
Proof.
  intros Hs. apply noIntersection_true_iff. exists 0. split; [lia|].
  rewrite (meshTerm_finite scenarioC segments 0) by (reflexivity || exact Hs).
  simpl. apply Rltb_true.
  unfold rTerm, rAlpha, rR1, rR2_calc, rR2_outer. simpl.
  replace (0 / INR segments * 2 * PI)%R with 0%R by (unfold Rdiv; ring).
  rewrite sin_0. lra.
Qed.

Lemma C3_invalid_result_has_no_geometry_witness :
  isValid (calculateNotchGeometry scenarioC 128) = false
  /\ vertices (calculateNotchGeometry scenarioC 128) = []
  /\ indices (calculateNotchGeometry scenarioC 128) = []
  /\ uvs (calculateNotchGeometry scenarioC 128) = []
  /\ error (calculateNotchGeometry scenarioC 128) <> None.
Proof.
  assert (H : isValid (calculateNotchGeometry scenarioC 128) = false).
  { rewrite calculateNotchGeometry_no_intersection; [reflexivity | | ].
    - unfold invalidDiameters, JS.not. simpl. rcases.
    - apply scenarioC_no_intersection. lia. }
  split; [exact H|].
  apply (proj1 (C3_invalid_result_has_no_geometry scenarioC 128)). exact H.
Defined.

Lemma invalidDiameters_rejected params :
  invalidDiameters params = rejectedDiameter (d1 params) || rejectedDiameter (d2 params).
Proof.
  unfold invalidDiameters, rejectedDiameter, JS.not.
  destruct (d1 params) as [ | | | a], (d2 params) as [ | | | b]; simpl; try reflexivity; rcases.
Qed.

(** An infinite main pipe: every sample has [term = Infinity]. *)
Lemma scenarioInfinite_term (segments x : nat) :
  1 <= segments -> meshTerm scenarioInfinite segments x = Infinity.
Proof.
  intros Hs. unfold meshTerm. rewrite (meshAlpha_Num segments x Hs).
  unfold intersectionTerm, R1, R2_calc, R2_outer, scenarioInfinite. simpl. rcases.
Qed.

(** C2, as stated, fails: a non-finite [d1] ([+Infinity]) is not turned
    down with "Invalid Diameters."; the result is valid. *)
Lemma C2_counterexample_infinite_diameter :
  isFinite (d1 scenarioInfinite) = false
  /\ isValid (calculateNotchGeometry scenarioInfinite 128) = true
  /\ error (calculateNotchGeometry scenarioInfinite 128) <> Some "Invalid Diameters."%string.
Proof.
  split; [reflexivity|].
  assert (H : 1 <= 128) by lia.
  destruct (calculateNotchGeometry_valid scenarioInfinite 128) as (Hv & He & _).
  - rewrite invalidDiameters_rejected. unfold rejectedDiameter. simpl. rcases.
  - apply noIntersection_false_iff. intros x _.
    rewrite (scenarioInfinite_term 128 x H). reflexivity.
  - split; [exact Hv | rewrite He; discriminate].
Qed.

(** C2 (amended). [calculateNotchGeometry] is invalid in exactly two
    cases: (1) [d1] or [d2] is [NaN] (or missing), zero or negative, and
    the result is the constant "Invalid Diameters." record, whatever the
    other parameters; (2) otherwise, some sample among the [segments + 1]
    angular positions has [term < -0.1], and the message contains
    "do not intersect".  No other input gives an invalid result; in
    particular [+Infinity] passes the guard. *)
Theorem C2_invalid_in_exactly_two_cases (params : PipeParameters) (segments : nat) :
  (rejectedDiameter (d1 params) || rejectedDiameter (d2 params) = true ->
   calculateNotchGeometry params segments = invalidResult "Invalid Diameters.")
  /\ (rejectedDiameter (d1 params) || rejectedDiameter (d2 params) = false ->
      (exists x, x <= segments
                 /\ JS.lt (meshTerm params segments x) (Num (-0.1)) = true) ->
      calculateNotchGeometry params segments
      = invalidResult "Geometry Error: Pipes do not intersect."
      /\ includes "do not intersect" "Geometry Error: Pipes do not intersect." = true)
  /\ (isValid (calculateNotchGeometry params segments) = false ->
      rejectedDiameter (d1 params) || rejectedDiameter (d2 params) = true
      \/ (rejectedDiameter (d1 params) || rejectedDiameter (d2 params) = false
          /\ exists x, x <= segments
                       /\ JS.lt (meshTerm params segments x) (Num (-0.1)) = true))
  /\ rejectedDiameter Infinity = false.
Proof.
  rewrite <- invalidDiameters_rejected. repeat split.
  - apply calculateNotchGeometry_invalid_diameters.
  - apply calculateNotchGeometry_no_intersection; [assumption|].
    apply noIntersection_true_iff. assumption.
  - intros H. destruct (invalidDiameters params) eqn:E1; [left; reflexivity|].
    right. split; [reflexivity|]. apply noIntersection_true_iff.
    destruct (noIntersection params segments) eqn:E2; [reflexivity|].
    destruct (calculateNotchGeometry_valid params segments E1 E2) as (Hv & _).
    congruence.
Qed.

Lemma C2_invalid_in_exactly_two_cases_witness :
  calculateNotchGeometry scenarioC 128
  = invalidResult "Geometry Error: Pipes do not intersect.".
Proof.
  destruct (C2_invalid_in_exactly_two_cases scenarioC 128) as (_ & H & _).
  apply H.
  - unfold rejectedDiameter. simpl. rcases.
  - apply noIntersection_true_iff. apply scenarioC_no_intersection. lia.
Defined.

(** ** Sample loops *)

Lemma for_each_ext {A S : Type} (xs : list A) (f g : A -> S -> S) (s : S) :
  (forall a st, In a xs -> f a st = g a st) ->
  for_each xs f s = for_each xs g s.
Proof.
  revert s. induction xs as [|a xs IH]; intros s H; [reflexivity|].
  rewrite !for_each_cons. rewrite (H a s (or_introl eq_refl)).
  apply IH. intros b st Hb. apply H. right. exact Hb.
Qed.

Lemma push_sample_kept (sample : option Point2D.t) (points : list Point2D.t) :
  push_sample sample points = points ++ kept sample.
Proof. destruct sample; simpl; [reflexivity | rewrite app_nil_r; reflexivity]. Qed.

(** A sample loop pushes the kept samples in order. *)
Lemma sample_loop_flat_map (body : nat -> option Point2D.t) (xs : list nat)
    (points : list Point2D.t) :
  for_each xs (fun i => push_sample (body i)) points
  = points ++ flat_map (fun i => kept (body i)) xs.
Proof.
  revert points. induction xs as [|i xs IH]; intros points.
  - simpl. rewrite app_nil_r. reflexivity.
  - rewrite for_each_cons, IH, push_sample_kept. simpl. rewrite <- app_assoc. reflexivity.
Qed.

Lemma sample_loop_ext (f g : nat -> option Point2D.t) (xs : list nat) :
  (forall i, In i xs -> f i = g i) ->
  for_each xs (fun i => push_sample (f i)) []
  = for_each xs (fun i => push_sample (g i)) [].
Proof.
  intros H. apply for_each_ext. intros i st Hi. rewrite (H i Hi). reflexivity.
Qed.

(** ** The hole contour *)

Lemma hole2DBody_ignores_calcByID (p q : PipeParameters) (steps i : nat) :
  sameExceptCalcByID p q -> hole2DBody p steps i = hole2DBody q steps i.
Proof.
  intros (E1 & E2 & E3 & E4 & E5 & _).
  unfold hole2DBody, R2_hole, R2_inner, R2_outer, R1, cosTheta, sinTheta, sT,
    sinTheta, angleRad.
  rewrite E1, E2, E3, E4, E5. reflexivity.
Qed.

Lemma service_hole2DBody_ignores_calcByID (p q : PipeParameters) (i : nat) :
  sameExceptCalcByID p q -> DxfService.hole2DBody p i = DxfService.hole2DBody q i.
Proof.
  intros (E1 & E2 & E3 & E4 & E5 & _).
  unfold DxfService.hole2DBody, DxfService.R2_inner, DxfService.R2_outer,
    DxfService.R1, DxfService.cosTheta, DxfService.sinTheta, DxfService.sT,
    DxfService.sinTheta, DxfService.angleRad.
  rewrite E1, E2, E3, E4, E5. reflexivity.
Qed.

(** C8. The hole contour does not depend on [calcByID]: two parameter
    records that differ only in that flag give the same points, in
    [calculateUnrolledPoints(params, 'hole')] and in the private
    [calculateHole2D] of the DXF service, because the hole radius is
    [R2_inner = d2 / 2 - thickness] whatever the flag. *)
Theorem C8_hole_contour_independent_of_calcByID (p q : PipeParameters) :
  sameExceptCalcByID p q ->
  calculateUnrolledPoints p hole = calculateUnrolledPoints q hole
  /\ DxfService.calculateHole2D p = DxfService.calculateHole2D q
  /\ R2_hole p = JS.sub (JS.div (d2 p) (Num 2)) (thickness p)
  /\ R2_hole q = JS.sub (JS.div (d2 p) (Num 2)) (thickness p).
Proof.
  intros H. repeat split.
  - unfold calculateUnrolledPoints, calculateHole2D, hole2DRaw.
    destruct H as (E1 & E2 & E3 & E4 & E5 & E6 & E7 & E8 & E9).
    rewrite E8. f_equal. apply sample_loop_ext. intros i _.
    apply hole2DBody_ignores_calcByID. repeat split; assumption.
  - unfold DxfService.calculateHole2D. apply sample_loop_ext. intros i _.
    apply service_hole2DBody_ignores_calcByID. exact H.
  - destruct H as (_ & E2 & E3 & _). unfold R2_hole, R2_inner, R2_outer.
    rewrite E2, E3. reflexivity.
Qed.

Lemma C8_hole_contour_independent_of_calcByID_witness :
  sameExceptCalcByID scenarioA scenarioA_byOD
  /\ calculateUnrolledPoints scenarioA hole = calculateUnrolledPoints scenarioA_byOD hole.
Proof.
  assert (H : sameExceptCalcByID scenarioA scenarioA_byOD)
    by (repeat split; reflexivity).
  split; [exact H|].
  apply (proj1 (C8_hole_contour_independent_of_calcByID scenarioA scenarioA_byOD H)).
Defined.

(** ** Strings *)

Lemma append_nil_r (s : string) : s ^^ EmptyString = s.
Proof. induction s as [|c s IH]; simpl; [reflexivity | rewrite IH; reflexivity]. Qed.

Lemma append_assoc (a b c : string) : (a ^^ b) ^^ c = a ^^ (b ^^ c).
Proof. induction a as [|x a IH]; simpl; [reflexivity | rewrite IH; reflexivity]. Qed.

(** ** The polyline writer *)

Lemma mul_1_r (x : number) : JS.mul x (Num 1) = x.
Proof. destruct x; simpl; try reflexivity; try rcases. f_equal. ring. Qed.

Lemma pow_2_square (x : number) : Math.pow x 2 = JS.mul x x.
Proof. simpl. rewrite mul_1_r. reflexivity. Qed.

Lemma closingDistance_euclidean (a b : Point2D.t) :
  DxfWriter.closingDistance a b = euclideanDistance a b.
Proof. unfold DxfWriter.closingDistance, euclideanDistance. rewrite !pow_2_square. reflexivity. Qed.

(** On finite coordinates the test [dist > 0.001] is the test on the
    real distance. *)
Lemma closing_test_finite (ax ay bx by' : R) :
  JS.gt (euclideanDistance (Point2D.mk (Num ax) (Num ay)) (Point2D.mk (Num bx) (Num by')))
        (Num 0.001)
  = Rltb 0.001 (sqrt ((ax - bx) * (ax - bx) + (ay - by') * (ay - by'))).
Proof.
  unfold euclideanDistance, JS.gt. cbn [Point2D.x Point2D.y JS.sub JS.neg JS.add JS.mul].
  rewrite sqrt_Num by (apply Rplus_le_le_0_compat; apply Rle_0_sqr). reflexivity.
Qed.

Lemma vertex_loop (toFixed : number -> nat -> string) (points : list Point2D.t)
    (parts : list string) :
  for_each points (fun p parts => parts ++ [DxfWriter.vertexRecord toFixed p]) parts
  = parts ++ map (DxfWriter.vertexRecord toFixed) points.
Proof.
  revert parts. induction points as [|p points IH]; intros parts.
  - simpl. rewrite app_nil_r. reflexivity.
  - rewrite for_each_cons, IH. simpl. rewrite <- app_assoc. reflexivity.
Qed.

Lemma vertexRecord_is_vertex (toFixed : number -> nat -> string) (p : Point2D.t) :
  isVertexRecord (DxfWriter.vertexRecord toFixed p) = true.
Proof. reflexivity. Qed.

Lemma vertexCount_app (xs ys : list string) :
  vertexCount (xs ++ ys) = vertexCount xs + vertexCount ys.
Proof. unfold vertexCount. rewrite filter_app, length_app. reflexivity. Qed.

Lemma vertexCount_records (toFixed : number -> nat -> string) (points : list Point2D.t) :
  vertexCount (map (DxfWriter.vertexRecord toFixed) points) = List.length points.
Proof.
  unfold vertexCount. induction points as [|p points IH]; [reflexivity|].
  cbn [map filter]. rewrite vertexRecord_is_vertex. cbn [List.length]. rewrite IH. reflexivity.
Qed.

(** C9. For a non-empty point list [first :: rest], [addPolyline] with
    [closed = true] pushes the [POLYLINE] record with group code 70 set
    to 1, one [VERTEX] record per point, one more [VERTEX] record that
    repeats the first point exactly when the Euclidean distance of the
    first and the last point exceeds [0.001], and [SEQEND]; with
    [closed = false] group code 70 is 0 and no vertex is repeated. *)
Theorem C9_polyline_vertex_records (toFixed : number -> nat -> string)
    (first : Point2D.t) (rest : list Point2D.t) (parts : list string) :
  let points := first :: rest in
  let far := JS.gt (euclideanDistance first (List.last points first)) (Num 0.001) in
  DxfWriter.addPolyline toFixed points true parts
  = parts ++ [DxfWriter.polylineStart true]
      ++ map (DxfWriter.vertexRecord toFixed) points
      ++ (if far then [DxfWriter.vertexRecord toFixed first] else [])
      ++ [DxfWriter.seqEnd]
  /\ vertexCount (DxfWriter.addPolyline toFixed points true parts)
     = vertexCount parts + List.length points + (if far then 1 else 0)
  /\ DxfWriter.addPolyline toFixed points false parts
     = parts ++ [DxfWriter.polylineStart false]
         ++ map (DxfWriter.vertexRecord toFixed) points
         ++ [DxfWriter.seqEnd]
  /\ vertexCount (DxfWriter.addPolyline toFixed points false parts)
     = vertexCount parts + List.length points
  /\ DxfWriter.polylineStart true
     = lines ["0"; "POLYLINE"; "8"; "0"; "66"; "1"]%string ^^ lines ["70"; "1"]%string
  /\ DxfWriter.polylineStart false
     = lines ["0"; "POLYLINE"; "8"; "0"; "66"; "1"]%string ^^ lines ["70"; "0"]%string.
Proof.
  intros points far.
  assert (Hclosed : DxfWriter.addPolyline toFixed points true parts
    = parts ++ [DxfWriter.polylineStart true]
      ++ map (DxfWriter.vertexRecord toFixed) points
      ++ (if far then [DxfWriter.vertexRecord toFixed first] else [])
      ++ [DxfWriter.seqEnd]).
  { unfold DxfWriter.addPolyline, points. rewrite vertex_loop.
    fold points. rewrite closingDistance_euclidean. fold far.
    destruct far; rewrite <- ?app_assoc; reflexivity. }
  assert (Hopen : DxfWriter.addPolyline toFixed points false parts
    = parts ++ [DxfWriter.polylineStart false]
        ++ map (DxfWriter.vertexRecord toFixed) points
        ++ [DxfWriter.seqEnd]).
  { unfold DxfWriter.addPolyline, points. rewrite vertex_loop.
    rewrite <- ?app_assoc. reflexivity. }
  split; [exact Hclosed|]. split; [|split; [exact Hopen|split]].
  - rewrite Hclosed. rewrite !vertexCount_app, vertexCount_records.
    destruct far.
    + change (vertexCount [DxfWriter.vertexRecord toFixed first]) with 1.
      change (vertexCount [DxfWriter.polylineStart true]) with 0.
      change (vertexCount [DxfWriter.seqEnd]) with 0. lia.
    + change (vertexCount []) with 0.
      change (vertexCount [DxfWriter.polylineStart true]) with 0.
      change (vertexCount [DxfWriter.seqEnd]) with 0. lia.
  - rewrite Hopen. rewrite !vertexCount_app, vertexCount_records.
    change (vertexCount [DxfWriter.polylineStart false]) with 0.
    change (vertexCount [DxfWriter.seqEnd]) with 0. lia.
  - split; reflexivity.
Qed.

(** ** The DXF service *)

Lemma text_loop {A : Type} (f : A -> string) (xs : list A) (acc : string) :
  for_each xs (fun a dxf => dxf ^^ f a) acc = acc ^^ join (map f xs).
Proof.
  revert acc. induction xs as [|a xs IH]; intros acc.
  - simpl. rewrite append_nil_r. reflexivity.
  - rewrite for_each_cons, IH. simpl. rewrite append_assoc. reflexivity.
Qed.

Lemma assemble_starts_with_header toFixed type params pad pts :
  startsWith (DxfService.assemble toFixed type params pad pts) DxfService.getHeader.
Proof.
  unfold startsWith, DxfService.assemble. rewrite text_loop.
  destruct type; rewrite !append_assoc; eexists; reflexivity.
Qed.

Lemma assemble_ends_with_footer toFixed type params pad pts :
  endsWith (DxfService.assemble toFixed type params pad pts) DxfService.getFooter.
Proof. unfold endsWith, DxfService.assemble. eexists. reflexivity. Qed.

Lemma startsWith_header_nonempty (s : string) :
  startsWith s DxfService.getHeader -> s <> EmptyString.
Proof. intros (rest & ->). discriminate. Qed.

Lemma length_eqb_0 {A : Type} (xs : list A) :
  Nat.eqb (List.length xs) 0 = true <-> xs = [].
Proof. destruct xs; simpl; split; intros H; (reflexivity || discriminate). Qed.

Lemma recomputePoints_none type params :
  DxfService.recomputePoints type params = None <->
  type = pipe
  /\ (isValid (calculateNotchGeometry params 360) = false
      \/ contour2D (calculateNotchGeometry params 360) = None).
Proof.
  unfold DxfService.recomputePoints. destruct type.
  - destruct (isValid (calculateNotchGeometry params 360));
      destruct (contour2D (calculateNotchGeometry params 360)); simpl; split;
      intros H; try discriminate H; try reflexivity;
      try (split; [reflexivity | auto; fail]);
      destruct H as (_ & [H | H]); discriminate H.
  - split; [discriminate | intros (H & _); discriminate].
Qed.

Lemma recomputePoints_some type params pts :
  DxfService.recomputePoints type params = Some pts -> pts = recomputed2D type params.
Proof.
  unfold DxfService.recomputePoints, recomputed2D. destruct type.
  - destruct (negb _ || _); [discriminate | intros [= <-]; reflexivity].
  - intros [= <-]; reflexivity.
Qed.

(** C10. [generateDXF] reports failure by its value: it returns the empty
    string exactly when the geometry is unavailable (for ['pipe'] the
    mesh of [calculateNotchGeometry] is invalid or has no contour; for
    either kind the recomputed 2D point list is empty); otherwise it
    returns a non-empty string that starts with the [SECTION]/[ENTITIES]
    header and ends with the [ENDSEC]/[EOF] footer. *)
Theorem C10_generateDXF_empty_iff_unavailable (toFixed : number -> nat -> string)
    (type : TemplateType) (params : PipeParameters) :
  (DxfService.generateDXF toFixed type params = EmptyString
   <-> geometryUnavailable type params)
  /\ (~ geometryUnavailable type params ->
      DxfService.generateDXF toFixed type params <> EmptyString
      /\ startsWith (DxfService.generateDXF toFixed type params)
                    (lines ["0"; "SECTION"; "2"; "ENTITIES"]%string)
      /\ endsWith (DxfService.generateDXF toFixed type params)
                  (lines ["0"; "ENDSEC"; "0"; "EOF"]%string)).
Proof.
  unfold geometryUnavailable, DxfService.generateDXF.
  destruct (DxfService.recomputePoints type params) as [pts|] eqn:E.
  - pose proof (recomputePoints_some type params pts E) as Hpts.
    assert (Hnone : ~ (type = pipe
      /\ (isValid (calculateNotchGeometry params 360) = false
          \/ contour2D (calculateNotchGeometry params 360) = None))).
    { intros H. apply recomputePoints_none in H. congruence. }
    rewrite <- Hpts.
    destruct (Nat.eqb (List.length pts) 0) eqn:El.
    + apply length_eqb_0 in El. split.
      * split; [intros _; right; exact El | reflexivity].
      * intros H. contradiction H. right. exact El.
    + assert (Hne : pts <> []).
      { intros H. apply length_eqb_0 in H. congruence. }
      pose proof (assemble_starts_with_header toFixed type params
        (JS.or match type with pipe => paddingD2 params | hole => paddingD1 params end (Num 0))
        (DxfService.shiftPoints type
           (JS.or match type with pipe => paddingD2 params | hole => paddingD1 params end (Num 0))
           pts)) as Hs.
      split.
      * split.
        -- intros H. apply startsWith_header_nonempty in Hs. contradiction.
        -- intros [H | H]; [contradiction | contradiction].
      * intros _. split; [apply startsWith_header_nonempty; exact Hs|].
        split; [exact Hs | apply assemble_ends_with_footer].
  - apply recomputePoints_none in E. split.
    + split; [intros _; left; exact E | reflexivity].
    + intros H. contradiction H. left. exact E.
Qed.

(** ** Depth of the cut on finite parameters *)

Lemma safeSmall_Num (v : R) :
  MathUtils.safeSmall (Num v) MathUtils.epsilon_default = Num (rSafeSmall v).
Proof.
  unfold MathUtils.safeSmall, MathUtils.epsilon_default, rSafeSmall. simpl.
  destruct (Rltb (Rabs v) 1e-6); [|reflexivity].
  destruct (Rleb 0 v); reflexivity.
Qed.

Lemma rSafeSmall_nonzero (v : R) : rSafeSmall v <> 0%R.
Proof.
  unfold rSafeSmall.
  destruct (Rltb (Rabs v) 1e-6) eqn:E.
  - destruct (Rleb 0 v); lra.
  - intros H. subst v. rewrite Rabs_R0 in E.
    rewrite Rltb_true in E by lra. discriminate.
Qed.

Lemma safeSmall_infinite (b : bool) :
  MathUtils.safeSmall (signed_inf b) MathUtils.epsilon_default = signed_inf b.
Proof. destruct b; reflexivity. Qed.

Lemma degToRad_Num (a : R) : MathUtils.degToRad (Num a) = Num (a * PI / 180).
Proof. unfold MathUtils.degToRad, Math.PI. simpl JS.mul. apply div_Num. lra. Qed.

Lemma angleRad_finite p : finiteDimensions p = true -> angleRad p = Num (rAngleRad p).
Proof.
  intros H. destruct (finiteDimensions_fields p H) as (_ & _ & _ & E & _).
  unfold angleRad, rAngleRad. rewrite E at 1. apply degToRad_Num.
Qed.

Lemma startAngleRad_finite p :
  finiteDimensions p = true -> startAngleRad p = Num (rStartAngleRad p).
Proof.
  intros H. destruct (finiteDimensions_fields p H) as (_ & _ & _ & _ & _ & _ & E).
  unfold startAngleRad, rStartAngleRad. rewrite E at 1. apply degToRad_Num.
Qed.

Lemma sT_finite p : finiteDimensions p = true -> sT p = Num (rsT p).
Proof.
  intros H. unfold sT, sinTheta, rsT. rewrite (angleRad_finite p H).
  simpl Math.sin. apply safeSmall_Num.
Qed.

Lemma sin_nonzero_at_pole (a : R) : cos a = 0%R -> sin a <> 0%R.
Proof. intros Hc Hs. pose proof (sin2_cos2 a) as H. unfold Rsqr in H. rewrite Hc, Hs in H. lra. Qed.

(** Dividing a finite number by [tT]. *)
Lemma div_by_tT p (X : R) :
  finiteDimensions p = true -> JS.div (Num X) (tT p) = Num (X * rInvtT p).
Proof.
  intros H. unfold tT, tanTheta, rInvtT, Math.tan. rewrite (angleRad_finite p H).
  simpl Math.sin. simpl Math.cos.
  set (s := sin (rAngleRad p)). set (c := cos (rAngleRad p)).
  unfold JS.div at 2. destruct (Reqb c 0) eqn:Ec.
  - apply Reqb_iff in Ec. pose proof (sin_nonzero_at_pole _ Ec) as Hs. fold s in Hs.
    rewrite (Reqb_false _ _ Hs), safeSmall_infinite.
    destruct (Rltb 0 s); simpl; f_equal; ring.
  - rewrite safeSmall_Num. rewrite div_Num by apply rSafeSmall_nonzero.
    reflexivity.
Qed.

Lemma lengthToTouch_finite p (a : R) :
  finiteDimensions p = true ->
  lengthToTouch p (Num a) = option_map Num (rLengthToTouch p a).
Proof.
  intros H. destruct (finiteDimensions_fields p H) as (_ & _ & _ & _ & Eo & Eg & _).
  unfold lengthToTouch, rLengthToTouch.
  pose proof (intersectionTerm_Num (rR1 p) (rR2_calc p) (toR (offset p)) a) as Ht.
  unfold intersectionTerm in Ht. fold (rTerm p (toR (offset p)) a) in Ht.
  set (t := rTerm p (toR (offset p)) a) in *.
  set (o := toR (offset p)) in *.
  rewrite (R1_finite p H), (R2_calc_finite p H), Eo, Ht.
  assert (Hdepth : forall u : R, (0 <= u)%R ->
    JS.sub (JS.add (JS.mul (JS.div (Num 1) (sT p)) (Math.sqrt (Num u)))
                   (JS.div (JS.mul (R2_draw p) (Math.cos (Num a))) (tT p)))
           (weldingGap p)
    = Num (rDepth p u a)).
  { intros u Hu. unfold R2_draw. rewrite (sT_finite p H), (R2_outer_finite p H).
    rewrite div_Num by apply rSafeSmall_nonzero. rewrite (sqrt_Num u Hu).
    simpl Math.cos. simpl JS.mul. rewrite (div_by_tT p _ H). rewrite Eg at 1.
    unfold rDepth, rsT. reflexivity. }
  unfold JS.gt. simpl JS.lt.
  destruct (Rltb t 0) eqn:E1.
  - destruct (Rltb (-0.1) t) eqn:E2; [|reflexivity].
    simpl option_map. f_equal. apply Hdepth. lra.
  - simpl option_map. f_equal. apply Hdepth.
    destruct (Rlt_dec t 0) as [Hlt|Hge]; [rewrite (Rltb_true _ _ Hlt) in E1; discriminate | lra].
Qed.

(** ** Sample lists *)

Lemma flat_map_pointwise {A B : Type} (f g : A -> list B) (xs : list A) :
  (forall a, In a xs -> f a = g a) -> flat_map f xs = flat_map g xs.
Proof.
  induction xs as [|a xs IH]; intros H; [reflexivity|].
  simpl. rewrite (H a (or_introl eq_refl)), IH; [reflexivity|].
  intros b Hb. apply H. right. exact Hb.
Qed.

Lemma flat_map_pointwise_nil {A B : Type} (f : A -> list B) (xs : list A) :
  (forall a, In a xs -> f a = []) -> flat_map f xs = [].
Proof.
  induction xs as [|a xs IH]; intros H; [reflexivity|].
  simpl. rewrite (H a (or_introl eq_refl)), IH; [reflexivity|].
  intros b Hb. apply H. right. exact Hb.
Qed.

Lemma effAngleOf_finite p steps i :
  finiteDimensions p = true -> 1 <= steps ->
  effAngleOf p steps i = Num (INR i / INR steps * 2 * PI + rStartAngleRad p).
Proof.
  intros H Hs. unfold effAngleOf. rewrite (ratio_Num steps i Hs), (startAngleRad_finite p H).
  reflexivity.
Qed.

Lemma pipe2DBody_y p steps i :
  option_map Point2D.y (pipe2DBody p steps i) = lengthToTouch p (effAngleOf p steps i).
Proof. unfold pipe2DBody. destruct (lengthToTouch p (effAngleOf p steps i)); reflexivity. Qed.

(** ** The offset and the first sample *)










(** ** Normalization of a contour *)

Lemma le_Infinity_finite (v : number) : isFinite v = true -> JS.le Infinity v = false.
Proof. destruct v; simpl; intros H; (discriminate || reflexivity). Qed.

Lemma le_refl_finite (v : number) : isFinite v = true -> JS.le v v = true.
Proof. destruct v; simpl; intros H; try discriminate. apply Rleb_true. lra. Qed.

Lemma le_antisym_finite (a b : number) :
  isFinite a = true -> isFinite b = true ->
  JS.le a b = true -> JS.le b a = true -> a = b.
Proof.
  destruct a, b; simpl; intros Ha Hb; try discriminate.
  intros H1 H2. apply Rleb_iff in H1. apply Rleb_iff in H2. f_equal. lra.
Qed.

Lemma le_trans (a b c : number) :
  JS.le a b = true -> JS.le b c = true -> JS.le a c = true.
Proof.
  destruct a, b, c; simpl; intros H1 H2; try discriminate; try reflexivity.
  apply Rleb_iff in H1. apply Rleb_iff in H2. apply Rleb_true. lra.
Qed.

(** One step of the minimum loop on values that are not [NaN]. *)
Lemma min_step (acc v : number) :
  isFinite v = true -> (acc = Infinity \/ isFinite acc = true) ->
  let m := if JS.lt v acc then v else acc in
  (m = acc \/ m = v) /\ JS.le m v = true
  /\ (acc = Infinity \/ JS.le m acc = true) /\ isFinite m = true
  /\ Math.min2 acc v = m.
Proof.
  intros Hv Hacc. destruct v as [ | | | b]; try discriminate.
  destruct Hacc as [-> | Hacc].
  - simpl. repeat split; auto. apply Rleb_true. lra.
  - destruct acc as [ | | | a]; try discriminate. simpl.
    unfold Rltb. destruct (Rlt_dec b a); simpl;
      repeat split; auto;
      try (apply Rleb_true; lra); try (right; apply Rleb_true; lra).
Qed.

(** The minimum loop over finite values, from an accumulator that is
    [Infinity] or finite. *)
Lemma min_loop (vs : list number) :
  Forall (fun v => isFinite v = true) vs ->
  forall acc, acc = Infinity \/ isFinite acc = true ->
  let m := fold_left (fun minY v => if JS.lt v minY then v else minY) vs acc in
  (m = acc \/ In m vs)
  /\ (forall v, In v vs -> JS.le m v = true)
  /\ (acc = Infinity \/ JS.le m acc = true)
  /\ (m = Infinity \/ isFinite m = true)
  /\ fold_left Math.min2 vs acc = m.
Proof.
  induction 1 as [|v vs Hv Hvs IH]; intros acc Hacc.
  - simpl. repeat split; auto; try (intros v []).
    destruct Hacc as [E | E]; [left; exact E | right; apply le_refl_finite; exact E].
  - cbn [fold_left].
    destruct (min_step acc v Hv Hacc) as (Hm & Hle & Hacc' & Hfin & Hmin2).
    rewrite Hmin2.
    set (m1 := if JS.lt v acc then v else acc) in *.
    destruct (IH m1 (or_intror Hfin)) as (Hin & Hall & Hle1 & Hfin1 & Hfold).
    set (m := fold_left (fun minY v => if JS.lt v minY then v else minY) vs m1) in *.
    assert (Hmfin : isFinite m = true).
    { destruct Hin as [-> | Hin]; [exact Hfin|].
      rewrite Forall_forall in Hvs. apply Hvs. exact Hin. }
    assert (Hmm1 : JS.le m m1 = true).
    { destruct Hle1 as [E | Hle1]; [rewrite E in Hfin; discriminate | exact Hle1]. }
    repeat split.
    + destruct Hin as [Hin | Hin].
      * destruct Hm as [E | E]; [left; congruence | right; left; congruence].
      * right. right. exact Hin.
    + intros w [<- | Hw]; [|apply Hall; exact Hw].
      apply (le_trans m m1 v Hmm1 Hle).
    + destruct Hacc' as [E | Hacc']; [left; exact E | right].
      apply (le_trans m m1 acc Hmm1 Hacc').
    + right. exact Hmfin.
    + exact Hfold.
Qed.

Lemma minYOf_fold (points : list Point2D.t) (acc : number) :
  for_each points
    (fun p minY => if JS.lt (Point2D.y p) minY then Point2D.y p else minY) acc
  = fold_left (fun minY v => if JS.lt v minY then v else minY)
      (map Point2D.y points) acc.
Proof.
  unfold for_each. revert acc. induction points as [|q points IH]; intros acc;
    [reflexivity | simpl; apply IH].
Qed.

(** The least of a non-empty list of finite values is what [Math.min]
    returns. *)
Lemma Math_min_least (vs : list number) (a : number) :
  Forall (fun v => isFinite v = true) vs ->
  In a vs -> (forall v, In v vs -> JS.le a v = true) ->
  Math.min vs = a.
Proof.
  intros Hfin Ha Hleast.
  destruct (min_loop vs Hfin Infinity (or_introl eq_refl)) as (Hin & Hall & _ & _ & Hfold).
  unfold Math.min. rewrite Hfold.
  set (m := fold_left (fun minY v => if JS.lt v minY then v else minY) vs Infinity) in *.
  rewrite Forall_forall in Hfin.
  destruct Hin as [E | Hin].
  - pose proof (Hall a Ha) as Hle. rewrite E, le_Infinity_finite in Hle by auto. discriminate.
  - apply le_antisym_finite; auto.
Qed.

(** [normalize] on points with finite ordinates and a finite padding. *)
Lemma normalize_finite (points : list Point2D.t) (pad : R) :
  Forall (fun q => isFinite (Point2D.y q) = true) points ->
  let out := normalize points (Num pad) in
  (points = [] -> out = [])
  /\ (out <> [] ->
      (exists q, In q out /\ Point2D.y q = Num pad)
      /\ (forall q, In q out -> JS.le (Num pad) (Point2D.y q) = true)
      /\ Forall (fun q => isFinite (Point2D.y q) = true) out).
Proof.
  intros Hfin out. split.
  - intros ->. reflexivity.
  - unfold out, normalize, minYOf. rewrite minYOf_fold.
    assert (Hys : Forall (fun v => isFinite v = true) (map Point2D.y points)).
    { rewrite Forall_map. exact Hfin. }
    destruct (min_loop _ Hys Infinity (or_introl eq_refl)) as (Hin & Hall & _ & Hm & _).
    set (m := fold_left (fun minY v => if JS.lt v minY then v else minY)
                (map Point2D.y points) Infinity) in *.
    destruct m as [ | | | a] eqn:Em;
      try (destruct Hm as [Hm | Hm]; discriminate Hm).
    { simpl. intros Hne. contradiction Hne. reflexivity. }
    simpl JS.strict_eq. cbv iota. intros _.
    destruct Hin as [Hin | Hin]; [discriminate|].
    apply in_map_iff in Hin. destruct Hin as (q0 & Hq0 & Hq0in).
    rewrite Forall_forall in Hfin.
    repeat split.
    + exists (Point2D.mk (Point2D.x q0) (JS.add (JS.sub (Point2D.y q0) (Num a)) (Num pad))).
      split.
      * apply in_map_iff. exists q0. split; [reflexivity | exact Hq0in].
      * simpl. rewrite Hq0. simpl. f_equal. ring.
    + intros q Hq. apply in_map_iff in Hq. destruct Hq as (q1 & <- & Hq1).
      pose proof (Hall (Point2D.y q1) (in_map Point2D.y _ _ Hq1)) as Hle.
      pose proof (Hfin q1 Hq1) as Hf. simpl.
      destruct (Point2D.y q1) as [ | | | b]; try discriminate.
      simpl in *. apply Rleb_iff in Hle. apply Rleb_true. lra.
    + apply Forall_forall. intros q Hq. apply in_map_iff in Hq.
      destruct Hq as (q1 & <- & Hq1). pose proof (Hfin q1 Hq1) as Hf. simpl.
      destruct (Point2D.y q1); try discriminate. reflexivity.
Qed.

(** ** The samples of the unrolled contours are finite *)

Lemma sinTheta_finite p : finiteDimensions p = true -> sinTheta p = Num (sin (rAngleRad p)).
Proof. intros H. unfold sinTheta. rewrite (angleRad_finite p H). reflexivity. Qed.

Lemma cosTheta_finite p : finiteDimensions p = true -> cosTheta p = Num (cos (rAngleRad p)).
Proof. intros H. unfold cosTheta. rewrite (angleRad_finite p H). reflexivity. Qed.

Lemma Rltb_false_le (a b : R) : Rltb a b = false -> (b <= a)%R.
Proof.
  intros H. destruct (Rlt_dec a b) as [Hlt | Hge]; [|lra].
  rewrite (Rltb_true _ _ Hlt) in H. discriminate.
Qed.

Lemma pipe2DBody_finite p steps i q :
  finiteDimensions p = true -> 1 <= steps ->
  pipe2DBody p steps i = Some q -> isFinite (Point2D.y q) = true.
Proof.
  intros H Hs Hq. pose proof (pipe2DBody_y p steps i) as Hy.
  rewrite Hq, (effAngleOf_finite p steps i H Hs), (lengthToTouch_finite p _ H) in Hy.
  simpl in Hy. destruct (rLengthToTouch p _); [|discriminate].
  injection Hy as ->. reflexivity.
Qed.

Lemma hole2DBody_finite p steps i q :
  finiteDimensions p = true -> 1 <= steps ->
  hole2DBody p steps i = Some q -> isFinite (Point2D.y q) = true.
Proof.
  intros H Hs. destruct (finiteDimensions_fields p H) as (_ & _ & _ & _ & Eo & _).
  unfold hole2DBody. cbv zeta. unfold R2_hole.
  rewrite (R2_inner_finite p H), (R1_finite p H), (ratio_Num steps i Hs),
    (sinTheta_finite p H), (cosTheta_finite p H), (sT_finite p H).
  set (o := toR (offset p)) in *. rewrite Eo.
  cbn [JS.mul JS.add JS.sub JS.neg Math.sin Math.cos Math.PI JS.lt].
  match goal with |- context [Rltb ?t 0] => set (T := t) end.
  destruct (Rltb T 0) eqn:E; [discriminate|].
  apply Rltb_false_le in E. rewrite (sqrt_Num T E).
  cbn [JS.add]. rewrite div_Num by apply rSafeSmall_nonzero.
  cbn [JS.mul JS.add JS.sub JS.neg].
  intros [= <-]. reflexivity.
Qed.

Lemma unrolledBody_finite type p i q :
  finiteDimensions p = true ->
  unrolledBody type p i = Some q -> isFinite (Point2D.y q) = true.
Proof.
  intros H. destruct type; simpl.
  - apply pipe2DBody_finite; [exact H | lia].
  - apply hole2DBody_finite; [exact H | lia].
Qed.

Lemma or_zero_finite (x : number) :
  finiteOrMissing x = true -> exists pad : R, JS.or x (Num 0) = Num pad.
Proof.
  unfold JS.or. destruct x; simpl; intros H; try discriminate.
  - eexists; reflexivity.
  - destruct (negb (Reqb r 0)); eexists; reflexivity.
Qed.

Lemma unrolledPadding_finite type p :
  finiteOrMissing (match type with pipe => paddingD2 p | hole => paddingD1 p end) = true ->
  exists pad : R, unrolledPadding type p = Num pad.
Proof. intros H. unfold unrolledPadding. apply or_zero_finite. exact H. Qed.

Lemma calculateUnrolledPoints_normalize type p :
  calculateUnrolledPoints p type
  = normalize (flat_map (fun i => kept (unrolledBody type p i)) (upto 360))
              (unrolledPadding type p).
Proof.
  unfold calculateUnrolledPoints, calculatePipe2D, calculateHole2D, pipe2DRaw, hole2DRaw.
  destruct type; rewrite sample_loop_flat_map; reflexivity.
Qed.

Lemma kept_samples_finite type p :
  finiteDimensions p = true ->
  Forall (fun q => isFinite (Point2D.y q) = true)
         (flat_map (fun i => kept (unrolledBody type p i)) (upto 360)).
Proof.
  intros H. apply Forall_forall. intros q Hq. apply in_flat_map in Hq.
  destruct Hq as (i & _ & Hq).
  destruct (unrolledBody type p i) as [q'|] eqn:E; simpl in Hq; [|contradiction].
  destruct Hq as [<- | []]. apply (unrolledBody_finite type p i q' H E).
Qed.

Lemma unrolledRaw_flat_map type p :
  unrolledRaw type p = flat_map (fun i => kept (unrolledBody type p i)) (upto 360).
Proof.
  unfold unrolledRaw, pipe2DRaw, hole2DRaw.
  destruct type; rewrite sample_loop_flat_map; reflexivity.
Qed.

(** C4 (amended). For both template kinds, whenever every depth the
    sample loop has kept is a finite number and the padding is a finite
    number or missing: if [calculateUnrolledPoints] returns a non-empty
    array some point has [y] equal to the padding ([paddingD2] for
    'pipe', [paddingD1] for 'hole', a falsy padding counting as 0) and no
    point lies below it, so that [Math.min] of the [y] values is the
    padding, a fortiori within [1e-6]; and, for all parameters, when
    every sample is skipped the function returns the empty array. *)
Theorem C4_min_y_is_padding (p : PipeParameters) (type : TemplateType) :
  (Forall (fun q => isFinite (Point2D.y q) = true) (unrolledRaw type p) ->
   finiteOrMissing (match type with pipe => paddingD2 p | hole => paddingD1 p end) = true ->
   calculateUnrolledPoints p type <> [] ->
   (exists q, In q (calculateUnrolledPoints p type)
              /\ Point2D.y q = unrolledPadding type p)
   /\ (forall q, In q (calculateUnrolledPoints p type) ->
                 JS.le (unrolledPadding type p) (Point2D.y q) = true)
   /\ Math.min (map Point2D.y (calculateUnrolledPoints p type)) = unrolledPadding type p
   /\ JS.le (Math.abs (JS.sub (Math.min (map Point2D.y (calculateUnrolledPoints p type)))
                             (unrolledPadding type p)))
            (Num 1e-6) = true)
  /\ ((forall i, i <= 360 -> unrolledBody type p i = None) ->
      calculateUnrolledPoints p type = []).
Proof.
  rewrite calculateUnrolledPoints_normalize, unrolledRaw_flat_map. split.
  - intros Hraw Hpad Hout.
    destruct (unrolledPadding_finite type p Hpad) as (pad & Epad). rewrite Epad in *.
    destruct (normalize_finite _ pad Hraw) as (_ & Hne).
    destruct (Hne Hout) as ((q & Hq & Hy) & Hall & Hfin).
    assert (Hmin : Math.min (map Point2D.y
                     (normalize (flat_map (fun i => kept (unrolledBody type p i)) (upto 360))
                                (Num pad))) = Num pad).
    { apply Math_min_least.
      - rewrite Forall_map. exact Hfin.
      - apply in_map_iff. exists q. split; [exact Hy | exact Hq].
      - intros v Hv. apply in_map_iff in Hv. destruct Hv as (q' & <- & Hq').
        apply Hall. exact Hq'. }
    split; [exists q; auto|]. split; [exact Hall|]. split; [exact Hmin|].
    rewrite Hmin. simpl. apply Rleb_true.
    replace (pad + - pad)%R with 0%R by ring. rewrite Rabs_R0. lra.
  - intros Hskip.
    assert (E : flat_map (fun i => kept (unrolledBody type p i)) (upto 360) = []).
    { apply flat_map_pointwise_nil. intros i Hi. apply in_upto in Hi.
      rewrite (Hskip i Hi). reflexivity. }
    rewrite E. reflexivity.
Qed.

Lemma normalize_nonempty (points : list Point2D.t) (pad : number) :
  Forall (fun q => isFinite (Point2D.y q) = true) points ->
  points <> [] -> normalize points pad <> [].
Proof.
  intros Hfin Hne. unfold normalize, minYOf. rewrite minYOf_fold.
  assert (Hys : Forall (fun v => isFinite v = true) (map Point2D.y points)).
  { rewrite Forall_map. exact Hfin. }
  destruct (min_loop _ Hys Infinity (or_introl eq_refl)) as (Hin & Hall & _ & Hm & _).
  set (m := fold_left (fun minY v => if JS.lt v minY then v else minY)
              (map Point2D.y points) Infinity) in *.
  destruct points as [|q points]; [contradiction Hne; reflexivity|].
  assert (Hq : isFinite (Point2D.y q) = true) by (inversion Hfin; assumption).
  pose proof (Hall (Point2D.y q) (or_introl eq_refl)) as Hle.
  destruct m as [ | | | a]; try (destruct Hm as [Hm | Hm]; discriminate Hm).
  - rewrite le_Infinity_finite in Hle by exact Hq. discriminate.
  - simpl. discriminate.
Qed.

(** ** Evaluation of the first sample *)

Lemma pipe2DBody_finite_eval q steps i :
  finiteDimensions q = true -> 1 <= steps ->
  pipe2DBody q steps i
  = option_map
      (fun d => Point2D.mk (Num (INR i / INR steps * (2 * PI * rR2_outer q))) (Num d))
      (rLengthToTouch q (INR i / INR steps * 2 * PI + rStartAngleRad q)).
Proof.
  intros H Hs. unfold pipe2DBody, circumference, R2_draw.
  rewrite (effAngleOf_finite q steps i H Hs), (lengthToTouch_finite q _ H).
  rewrite (ratio_Num steps i Hs), (R2_outer_finite q H).
  destruct (rLengthToTouch q _); reflexivity.
Qed.

Lemma rsT_right_angle q : toR (angle q) = 90%R -> rsT q = 1%R.
Proof.
  intros Ha. unfold rsT, rAngleRad. rewrite Ha.
  replace (90 * PI / 180)%R with (PI / 2)%R by lra. rewrite sin_PI2.
  unfold rSafeSmall. rewrite Rabs_R1. rewrite Rltb_false by lra. reflexivity.
Qed.

(** The first sample of a template rotated by a quarter turn, for a
    right-angle joint without offset and gap: the depth is
    [sqrt (R1^2 - R2_calc^2)]. *)
Lemma quarter_turn_first_sample q (r1 r2 h : R) :
  finiteDimensions q = true ->
  toR (angle q) = 90%R -> toR (startAngle q) = 90%R ->
  toR (offset q) = 0%R -> toR (weldingGap q) = 0%R ->
  rR1 q = r1 -> rR2_calc q = r2 -> (0 <= h)%R -> (r1 * r1 - r2 * r2 = h * h)%R ->
  pipe2DBody q 360 0 = Some (Point2D.mk (Num 0) (Num h)).
Proof.
  intros H Ha Hs Ho Hg H1 H2 Hh Hsq.
  rewrite (pipe2DBody_finite_eval q 360 0 H) by lia.
  change (INR 0) with 0%R.
  replace (0 / INR 360 * (2 * PI * rR2_outer q))%R with 0%R by (unfold Rdiv; ring).
  assert (Hang : (0 / INR 360 * 2 * PI + rStartAngleRad q = PI / 2)%R).
  { unfold rStartAngleRad. rewrite Hs.
    replace (0 / INR 360 * 2 * PI)%R with 0%R by (unfold Rdiv; ring). lra. }
  rewrite Hang. unfold rLengthToTouch.
  assert (Ht : rTerm q (toR (offset q)) (PI / 2) = (h * h)%R).
  { unfold rTerm. rewrite Ho, H1, H2, sin_PI2. lra. }
  rewrite Ht. rewrite Rltb_false by nra. simpl. do 3 f_equal.
  unfold rDepth. rewrite (rsT_right_angle q Ha), cos_PI2, Hg, (sqrt_square h Hh). field.
Qed.

(** Unfold the locals of both files down to the fields of the
    parameters. *)
Ltac unfold_locals :=
  unfold effAngleOf, circumference,
    DxfService.R1, DxfService.R2_calc, DxfService.R2_draw, DxfService.R2_outer,
    DxfService.sT, DxfService.tT, DxfService.sinTheta, DxfService.tanTheta,
    DxfService.angleRad, DxfService.startAngleRad, DxfService.steps,
    R1, R2_calc, R2_draw, R2_mesh, R2_inner, R2_outer, sT, tT, sinTheta, cosTheta,
    tanTheta, angleRad, startAngleRad,
    DepthSolver.contourSample, DepthSolver.contourDepth, DepthSolver.meshDepth,
    DepthSolver.depth, DepthSolver.term, DepthSolver.R2_effective,
    DepthSolver.R2_inner, DepthSolver.R2_outer, withCalcByID;
  cbn [d1 d2 thickness angle offset weldingGap startAngle calcByID];
  cbv zeta.

Lemma service_pipe2DBody_as_deep_cut p i :
  DxfService.pipe2DBody p i = pipe2DBody (withCalcByID p true) 360 i.
Proof.
  unfold DxfService.pipe2DBody, pipe2DBody, lengthToTouch. unfold_locals.
  match goal with |- context [if ?c then _ else _] => destruct c end;
    [match goal with |- context [if ?c then _ else _] => destruct c end|];
    reflexivity.
Qed.

(** ** Which radius goes where *)

Lemma pipe2DBody_contourSample p steps i :
  pipe2DBody p steps i
  = DepthSolver.contourSample (DepthSolver.R2_effective p)
      (DepthSolver.R2_outer p) p steps i.
Proof.
  unfold pipe2DBody, lengthToTouch. unfold_locals.
  match goal with |- context [if ?c then _ else _] => destruct c end;
    [match goal with |- context [if ?c then _ else _] => destruct c end|];
    reflexivity.
Qed.

Lemma service_pipe2DBody_contourSample p i :
  DxfService.pipe2DBody p i
  = DepthSolver.contourSample (DepthSolver.R2_outer p)
      (DepthSolver.R2_outer p) p 360 i.
Proof.
  unfold DxfService.pipe2DBody. unfold_locals.
  match goal with |- context [if ?c then _ else _] => destruct c end;
    [match goal with |- context [if ?c then _ else _] => destruct c end|];
    reflexivity.
Qed.

Lemma thickWalled_service_first_sample :
  DxfService.pipe2DBody thickWalled 0 = Some (Point2D.mk (Num 0) (Num 7)).
Proof.
  rewrite service_pipe2DBody_as_deep_cut.
  apply (quarter_turn_first_sample (withCalcByID thickWalled true) 25 24 7);
    try reflexivity; unfold rR1, rR2_calc, rR2_outer; simpl; lra.
Qed.

Lemma thickWalled_engine_first_sample :
  pipe2DBody thickWalled 360 0 = Some (Point2D.mk (Num 0) (Num 15)).
Proof.
  apply (quarter_turn_first_sample thickWalled 25 20 15);
    try reflexivity; unfold rR1, rR2_calc, rR2_inner; simpl; lra.
Qed.

(** C5, as stated, fails for the contour pass of the DXF service: with
    [calcByID = false] its first sample has the depth [7] of the outer
    radius [24], where the inner radius [20] of the claim gives [15]. *)
Lemma C5_counterexample_service_uses_outer_radius :
  calcByID thickWalled = false
  /\ DxfService.pipe2DBody thickWalled 0 = Some (Point2D.mk (Num 0) (Num 7))
  /\ DepthSolver.contourSample (DepthSolver.R2_effective thickWalled)
       (DepthSolver.R2_outer thickWalled) thickWalled 360 0
     = Some (Point2D.mk (Num 0) (Num 15))
  /\ DxfService.pipe2DBody thickWalled 0
     <> DepthSolver.contourSample (DepthSolver.R2_effective thickWalled)
          (DepthSolver.R2_outer thickWalled) thickWalled 360 0.
Proof.
  rewrite <- pipe2DBody_contourSample, thickWalled_service_first_sample, thickWalled_engine_first_sample.
  repeat split. intros [= H]. lra.
Qed.

(** C5 (amended). In the mesh pass and in the unrolled-contour pass of
    the geometry engine the intersection term is computed with
    [R2_outer = d2/2] when [calcByID] is true and with
    [R2_inner = d2/2 - thickness] when it is false; in the contour pass
    of the DXF service it is computed with [R2_outer] whatever
    [calcByID]; the drawn geometry (the [cos(effAngle)] component of the
    depth, the mesh cross-section, the unrolled circumference) uses
    [R2_outer] in all three. *)
Theorem C5_radius_selection (p : PipeParameters) :
  (forall segments x,
      meshTerm p segments x
      = DepthSolver.term (JS.div (d1 p) (Num 2)) (DepthSolver.R2_effective p)
          (offset p) (meshAlpha segments x))
  /\ (forall segments y x st,
         buf_vertices (meshBody p segments y x st)
         = buf_vertices st
           ++ DepthSolver.meshPoint (DepthSolver.R2_outer p) p
                (if Nat.eqb y 0
                 then DepthSolver.meshDepth (DepthSolver.R2_effective p)
                        (DepthSolver.R2_outer p) p (meshAlpha segments x)
                 else JS.add (d1 p) (pipe2Length p))
                (meshAlpha segments x))
  /\ (forall segments x st,
         buf_contour2D (meshBody p segments 0 x st)
         = buf_contour2D st
           ++ [Point2D.mk
                 (JS.mul (JS.div (JS.of_nat x) (JS.of_nat segments))
                         (JS.mul (JS.mul (Num 2) Math.PI) (DepthSolver.R2_outer p)))
                 (DepthSolver.meshDepth (DepthSolver.R2_effective p)
                    (DepthSolver.R2_outer p) p (meshAlpha segments x))])
  /\ (forall steps i,
         pipe2DBody p steps i
         = DepthSolver.contourSample (DepthSolver.R2_effective p)
             (DepthSolver.R2_outer p) p steps i)
  /\ (forall i,
         DxfService.pipe2DBody p i
         = DepthSolver.contourSample (DepthSolver.R2_outer p)
             (DepthSolver.R2_outer p) p 360 i).
Proof.
  split; [|split; [|split; [|split]]].
  - reflexivity.
  - intros segments y x st. unfold meshBody. cbn [buf_vertices].
    destruct (Nat.eqb y 0); reflexivity.
  - reflexivity.
  - apply pipe2DBody_contourSample.
  - apply service_pipe2DBody_contourSample.
Qed.

(** ** Scenario A end to end *)

Lemma pipe_first_sample_kept q :
  finiteDimensions q = true -> toR (startAngle q) = 0%R ->
  (toR (offset q) * toR (offset q) <= rR1 q * rR1 q)%R ->
  exists pt, pipe2DBody q 360 0 = Some pt.
Proof.
  intros H Hs Ho. rewrite (pipe2DBody_finite_eval q 360 0 H) by lia.
  change (INR 0) with 0%R.
  assert (Hang : (0 / INR 360 * 2 * PI + rStartAngleRad q = 0)%R).
  { unfold rStartAngleRad. rewrite Hs. unfold Rdiv. ring. }
  rewrite Hang. unfold rLengthToTouch.
  assert (Ht : (0 <= rTerm q (toR (offset q)) 0)%R).
  { unfold rTerm. rewrite sin_0. nra. }
  rewrite Rltb_false by lra. simpl. eexists. reflexivity.
Qed.

Lemma upto_cons (n : nat) : upto n = 0 :: seq 1 n.
Proof. reflexivity. Qed.

Lemma first_sample_nonempty (body : nat -> option Point2D.t) (n : nat) (pt : Point2D.t) :
  body 0 = Some pt ->
  for_each (upto n) (fun i => push_sample (body i)) [] <> [].
Proof.
  intros H. rewrite sample_loop_flat_map, upto_cons. cbn [flat_map app].
  rewrite H. discriminate.
Qed.

Lemma scenarioA_pipe_points_nonempty :
  calculateUnrolledPoints scenarioA pipe <> [].
Proof.
  assert (H : finiteDimensions scenarioA = true) by reflexivity.
  destruct (pipe_first_sample_kept scenarioA H) as (pt & Hpt).
  - reflexivity.
  - unfold rR1. simpl. lra.
  - rewrite calculateUnrolledPoints_normalize.
    apply normalize_nonempty; [apply kept_samples_finite; exact H|].
    pose proof (first_sample_nonempty (unrolledBody pipe scenarioA) 360 pt Hpt) as Hne.
    rewrite sample_loop_flat_map in Hne. exact Hne.
Qed.

Lemma scenarioA_pipe_padding : unrolledPadding pipe scenarioA = Num 20.
Proof. unfold unrolledPadding, JS.or. simpl. rcases. Qed.

Lemma C4_min_y_is_padding_witness :
  Math.min (map Point2D.y (calculateUnrolledPoints scenarioA pipe)) = Num 20.
Proof.
  destruct (C4_min_y_is_padding scenarioA pipe) as (Hmin & _).
  destruct Hmin as (_ & _ & E & _).
  - rewrite unrolledRaw_flat_map. apply kept_samples_finite. reflexivity.
  - reflexivity.
  - apply scenarioA_pipe_points_nonempty.
  - rewrite E. apply scenarioA_pipe_padding.
Defined.

(** With an infinite welding gap every depth is [-Infinity]: the
    minimum loop stops at it, and the shift turns it into [NaN]. *)
Lemma lengthToTouch_infinite_gap (eff : number) (d : R) :
  lengthToTouch scenarioA eff = Some (Num d) ->
  lengthToTouch scenarioInfiniteGap eff = Some NegInfinity.
Proof.
  unfold lengthToTouch. cbv zeta.
  change (R1 scenarioInfiniteGap) with (R1 scenarioA).
  change (R2_calc scenarioInfiniteGap) with (R2_calc scenarioA).
  change (R2_draw scenarioInfiniteGap) with (R2_draw scenarioA).
  change (offset scenarioInfiniteGap) with (offset scenarioA).
  change (sT scenarioInfiniteGap) with (sT scenarioA).
  change (tT scenarioInfiniteGap) with (tT scenarioA).
  change (weldingGap scenarioInfiniteGap) with Infinity.
  change (weldingGap scenarioA) with (Num 0).
  match goal with
  | |- context [if ?c then _ else _] => destruct c
  end;
  [match goal with
   | |- context [if ?c then _ else _] => destruct c
   end; [|discriminate]|];
  match goal with
  | |- Some (JS.sub ?X _) = _ -> _ => destruct X
  end; simpl; intros H; try discriminate H; reflexivity.
Qed.

Lemma minY_stays_NegInfinity (points : list Point2D.t) :
  for_each points
    (fun p minY => if JS.lt (Point2D.y p) minY then Point2D.y p else minY) NegInfinity
  = NegInfinity.
Proof.
  induction points as [|q points IH]; [reflexivity|].
  rewrite for_each_cons.
  assert (E : JS.lt (Point2D.y q) NegInfinity = false) by (destruct (Point2D.y q); reflexivity).
  rewrite E. exact IH.
Qed.

Lemma min_NaN (vs : list number) : fold_left Math.min2 vs NaN = NaN.
Proof. induction vs as [|v vs IH]; [reflexivity | exact IH]. Qed.

(** C4, as stated, fails: with [weldingGap = +Infinity] (Scenario A
    otherwise) the pipe contour is not empty and [Math.min] of its [y]
    values is [NaN], not the padding 20. *)
Lemma C4_counterexample_infinite_welding_gap :
  calculateUnrolledPoints scenarioInfiniteGap pipe <> []
  /\ Math.min (map Point2D.y (calculateUnrolledPoints scenarioInfiniteGap pipe)) = NaN
  /\ unrolledPadding pipe scenarioInfiniteGap = Num 20.
Proof.
  assert (H : finiteDimensions scenarioA = true) by reflexivity.
  destruct (pipe_first_sample_kept scenarioA H) as (pt & Hpt);
    [reflexivity | unfold rR1; simpl; lra |].
  pose proof (pipe2DBody_finite scenarioA 360 0 pt H ltac:(lia) Hpt) as Hfin.
  pose proof (pipe2DBody_y scenarioA 360 0) as Hy. rewrite Hpt in Hy. simpl in Hy.
  destruct (Point2D.y pt) as [ | | | d] eqn:Ed; try discriminate.
  symmetry in Hy. apply lengthToTouch_infinite_gap in Hy.
  change (effAngleOf scenarioA 360 0) with (effAngleOf scenarioInfiniteGap 360 0) in Hy.
  assert (Hq : exists x, pipe2DBody scenarioInfiniteGap 360 0
                         = Some (Point2D.mk x NegInfinity)).
  { unfold pipe2DBody. cbv zeta. rewrite Hy. eexists. reflexivity. }
  destruct Hq as (x & Hq).
  assert (Hraw : exists rest,
    flat_map (fun i => kept (unrolledBody pipe scenarioInfiniteGap i)) (upto 360)
    = Point2D.mk x NegInfinity :: rest).
  { rewrite upto_cons. cbn [flat_map unrolledBody]. rewrite Hq. eexists. reflexivity. }
  destruct Hraw as (rest & Hraw).
  assert (Hpad : unrolledPadding pipe scenarioInfiniteGap = Num 20)
    by (unfold unrolledPadding, JS.or; simpl; rcases).
  rewrite calculateUnrolledPoints_normalize, Hraw, Hpad.
  assert (Hmin : minYOf (Point2D.mk x NegInfinity :: rest) = NegInfinity).
  { unfold minYOf. rewrite for_each_cons. cbn [Point2D.y JS.lt].
    apply minY_stays_NegInfinity. }
  unfold normalize. cbv zeta. rewrite Hmin. cbn [JS.strict_eq map Point2D.y Point2D.x].
  split; [discriminate|]. split; [|reflexivity].
  unfold Math.min. cbn [fold_left JS.sub JS.neg JS.add Math.min2]. apply min_NaN.
Qed.

Lemma scenarioA_mesh_valid (segments : nat) :
  1 <= segments ->
  isValid (calculateNotchGeometry scenarioA segments) = true
  /\ contour2D (calculateNotchGeometry scenarioA segments) <> None.
Proof.
  intros Hs.
  destruct (calculateNotchGeometry_valid scenarioA segments) as (Hv & _ & Hc).
  - unfold invalidDiameters, JS.not. simpl. rcases.
  - apply noIntersection_false_iff. intros x Hx. apply le_not_gt.
    apply (scenarioA_samples_ok segments Hs x Hx).
  - split; [exact Hv | rewrite Hc; discriminate].
Qed.

Lemma scenarioA_geometry_available (type : TemplateType) :
  type = pipe -> ~ geometryUnavailable type scenarioA.
Proof.
  intros -> [(_ & [Hv | Hc]) | Hpts].
  - destruct (scenarioA_mesh_valid 360) as (E & _); [lia | congruence].
  - destruct (scenarioA_mesh_valid 360) as (_ & E); [lia | contradiction].
  - unfold recomputed2D, DxfService.calculatePipe2D, DxfService.steps in Hpts.
    destruct (pipe_first_sample_kept (withCalcByID scenarioA true)) as (pt & Hpt);
      [reflexivity | reflexivity | unfold rR1; simpl; lra |].
    rewrite <- service_pipe2DBody_as_deep_cut in Hpt.
    apply (first_sample_nonempty (DxfService.pipe2DBody scenarioA) 360 pt Hpt).
    exact Hpts.
Qed.

(** The test 'should generate valid DXF string' of [geometry.test.ts],
    with a stand-in for [toFixed]. *)
Lemma C10_generateDXF_empty_iff_unavailable_witness :
  DxfService.generateDXF (fun _ _ => "0.0000"%string) pipe scenarioA <> EmptyString
  /\ startsWith (DxfService.generateDXF (fun _ _ => "0.0000"%string) pipe scenarioA)
                (lines ["0"; "SECTION"; "2"; "ENTITIES"]%string)
  /\ endsWith (DxfService.generateDXF (fun _ _ => "0.0000"%string) pipe scenarioA)
              (lines ["0"; "ENDSEC"; "0"; "EOF"]%string).
Proof.
  apply (proj2 (C10_generateDXF_empty_iff_unavailable
                  (fun _ _ => "0.0000"%string) pipe scenarioA)).
  apply scenarioA_geometry_available. reflexivity.
Defined.

(* ================================================================== *)
(** * Further properties of the code *)
(* ================================================================== *)

(** ** math-utils.ts *)

(** Decide the comparisons and the signs under [Rabs] one at a time. *)
Ltac abs_cases :=
  unfold Rabs, Rltb, Rleb, Reqb in *;
  match goal with
  | |- context [Rcase_abs ?a] => destruct (Rcase_abs a)
  | |- context [Rlt_dec ?a ?b] => destruct (Rlt_dec a b)
  | |- context [Rle_dec ?a ?b] => destruct (Rle_dec a b)
  | |- context [Req_dec_T ?a ?b] => destruct (Req_dec_T a b)
  end;
  simpl in *; try lra.

(** Close a goal made of decided comparisons. *)
Ltac js_finish :=
  repeat split; intros; try reflexivity; try congruence;
  try match goal with
      | H : Num _ = Num _ |- _ => injection H; intros; lra
      end;
  try (let HH := fresh in intro HH; injection HH; intros; lra);
  try (exfalso; lra).

Lemma abs_finite_nonneg (v : number) (a : R) :
  Math.abs v = Num a -> (0 <= a)%R.
Proof.
  destruct v; simpl; intros H; try discriminate.
  injection H as <-. apply Rabs_pos.
Qed.

(** X1. For a positive [epsilon], [safeSmall] maps [NaN] to [NaN] and
    every other value to one whose magnitude is at least [epsilon]: it
    is never zero, it is non-negative exactly when the argument is, and
    a value outside the band is returned unchanged. *)
Theorem X1_safeSmall_keeps_clear_of_zero (val : number) (eps : R) :
  (0 < eps)%R ->
  (val = NaN -> MathUtils.safeSmall val (Num eps) = NaN)
  /\ (val <> NaN ->
      JS.ge (Math.abs (MathUtils.safeSmall val (Num eps))) (Num eps) = true
      /\ MathUtils.safeSmall val (Num eps) <> Num 0
      /\ JS.ge (MathUtils.safeSmall val (Num eps)) (Num 0) = JS.ge val (Num 0))
  /\ (JS.ge (Math.abs val) (Num eps) = true -> MathUtils.safeSmall val (Num eps) = val).
Proof.
  intros Heps. unfold MathUtils.safeSmall, JS.ge.
  destruct val as [ | | | v]; simpl; repeat abs_cases; js_finish.
Qed.

Lemma X1_safeSmall_keeps_clear_of_zero_witness :
  MathUtils.safeSmall (Num 0) (Num 1e-6) <> Num 0.
Proof.
  assert (H : (0 < 1e-6)%R) by lra.
  destruct (X1_safeSmall_keeps_clear_of_zero (Num 0) 1e-6 H) as (_ & Hmag & _).
  apply Hmag. discriminate.
Defined.

(** X2. [clampToZero] is idempotent, for every value and every
    [epsilon], and its result is zero or not inside the band: no small
    non-zero noise is left. *)
Theorem X2_clampToZero_idempotent (val eps : number) :
  MathUtils.clampToZero (MathUtils.clampToZero val eps) eps
  = MathUtils.clampToZero val eps
  /\ (MathUtils.clampToZero val eps = Num 0
      \/ JS.lt (Math.abs (MathUtils.clampToZero val eps)) eps = false).
Proof.
  unfold MathUtils.clampToZero.
  destruct (JS.lt (Math.abs val) eps) eqn:E.
  - assert (E0 : JS.lt (Math.abs (Num 0)) eps = true).
    { revert E. destruct val as [ | | | v], eps as [ | | | e]; simpl;
        try discriminate; try reflexivity.
      intros H. apply Rltb_iff in H. apply Rltb_true. rewrite Rabs_R0.
      pose proof (Rabs_pos v). lra. }
    rewrite E0. split; [reflexivity | left; reflexivity].
  - rewrite E. split; [reflexivity | right; reflexivity].
Qed.

(** ** The mesh of [calculateNotchGeometry] *)

Lemma for_each_invariant {A S : Type} (Q : S -> Prop) (body : A -> S -> S)
    (xs : list A) :
  (forall a s, In a xs -> Q s -> Q (body a s)) ->
  forall s, Q s -> Q (for_each xs body s).
Proof.
  induction xs as [|a xs IH]; intros H s Hs; [exact Hs|].
  rewrite for_each_cons. apply IH.
  - intros b t Hb. apply H. right. exact Hb.
  - apply H; [left; reflexivity | exact Hs].
Qed.

Lemma for_each_snoc {A S : Type} (xs : list A) (a : A) (body : A -> S -> S) (s : S) :
  for_each (xs ++ [a]) body s = body a (for_each xs body s).
Proof. unfold for_each. rewrite fold_left_app. reflexivity. Qed.

(** A loop that pushes [f a] at every iteration. *)
Lemma push_loop {A B : Type} (f : A -> list B) (xs : list A) (acc : list B) :
  for_each xs (fun a out => out ++ f a) acc = acc ++ flat_map f xs.
Proof.
  revert acc. induction xs as [|a xs IH]; intros acc.
  - simpl. rewrite app_nil_r. reflexivity.
  - rewrite for_each_cons, IH. simpl. rewrite <- app_assoc. reflexivity.
Qed.

Lemma flat_map_singleton {A B : Type} (f : A -> B) (xs : list A) :
  flat_map (fun a => [f a]) xs = map f xs.
Proof. induction xs as [|a xs IH]; [reflexivity | simpl; rewrite IH; reflexivity]. Qed.

Lemma valid_result p segments :
  isValid (calculateNotchGeometry p segments) = true ->
  calculateNotchGeometry p segments
  = {| vertices := structuredVertices (buf_vertices (meshLoop p segments));
       indices := indexLoop segments;
       uvs := buf_uvs (meshLoop p segments);
       isValid := true;
       error := None;
       contour2D := Some (buf_contour2D (meshLoop p segments)) |}
  /\ noIntersection p segments = false.
Proof.
  unfold calculateNotchGeometry.
  destruct (invalidDiameters p); [discriminate|].
  destruct (noIntersection p segments); [discriminate|].
  intros _. split; reflexivity.
Qed.

Lemma valid_vertices_length p segments :
  isValid (calculateNotchGeometry p segments) = true ->
  List.length (vertices (calculateNotchGeometry p segments)) = 2 * (segments + 1).
Proof.
  intros H. destruct (valid_result p segments H) as (-> & _). cbn [vertices].
  rewrite structuredVertices_length, meshLoop_vertices.
  replace (6 * (segments + 1) + 2) with (2 + (2 * (segments + 1)) * 3) by lia.
  rewrite Nat.div_add by lia. simpl. lia.
Qed.

Lemma indexLoop_in_bounds (segments : nat) :
  Forall (fun i => i < 2 * (segments + 1)) (indexLoop segments).
Proof.
  unfold indexLoop. apply for_each_invariant; [|constructor].
  intros x acc Hx Hacc. unfold below in Hx. apply in_seq in Hx.
  rewrite !Forall_app. repeat split; try exact Hacc;
    repeat (constructor; try lia).
Qed.

(** X3. Every index [calculateNotchGeometry] returns addresses a vertex
    it returns: the triangle list never points past the vertex array. *)
Theorem X3_mesh_indices_in_bounds (params : PipeParameters) (segments : nat) :
  Forall (fun i => i < List.length (vertices (calculateNotchGeometry params segments)))
         (indices (calculateNotchGeometry params segments)).
Proof.
  destruct (isValid (calculateNotchGeometry params segments)) eqn:E.
  - rewrite (valid_vertices_length params segments E).
    destruct (valid_result params segments E) as (-> & _). cbn [indices].
    apply indexLoop_in_bounds.
  - destruct (calculateNotchGeometry_cases params segments) as [H | [H | H]];
      try (rewrite H; constructor). congruence.
Qed.

Lemma meshRow_uvs p segments y (xs : list nat) st :
  buf_uvs (for_each xs (meshBody p segments y) st)
  = buf_uvs st
    ++ flat_map (fun x => [JS.div (JS.of_nat x) (JS.of_nat segments); JS.of_nat y]) xs.
Proof.
  revert st. induction xs as [|x xs IH]; intros st.
  - simpl. rewrite app_nil_r. reflexivity.
  - rewrite for_each_cons, IH. unfold meshBody. cbn [buf_uvs flat_map].
    rewrite <- app_assoc. reflexivity.
Qed.

Lemma meshRow_contour p segments y (xs : list nat) st :
  buf_contour2D (for_each xs (meshBody p segments y) st)
  = buf_contour2D st
    ++ (if Nat.eqb y 0
        then map (fun x =>
                    Point2D.mk
                      (JS.mul (JS.div (JS.of_nat x) (JS.of_nat segments))
                              (JS.mul (JS.mul (Num 2) Math.PI) (DepthSolver.R2_outer p)))
                      (DepthSolver.meshDepth (DepthSolver.R2_effective p)
                         (DepthSolver.R2_outer p) p (meshAlpha segments x))) xs
        else []).
Proof.
  revert st. induction xs as [|x xs IH]; intros st.
  - simpl. destruct (Nat.eqb y 0); rewrite app_nil_r; reflexivity.
  - rewrite for_each_cons, IH. unfold meshBody. cbn [buf_contour2D].
    destruct (Nat.eqb y 0); [|reflexivity].
    rewrite <- app_assoc. reflexivity.
Qed.

Lemma meshLoop_rows p segments :
  meshLoop p segments
  = for_each (upto segments) (meshBody p segments 1)
      (for_each (upto segments) (meshBody p segments 0)
         {| buf_vertices := []; buf_uvs := []; buf_contour2D := [] |}).
Proof. reflexivity. Qed.

Lemma meshLoop_uvs p segments :
  buf_uvs (meshLoop p segments)
  = flat_map (fun x => [JS.div (JS.of_nat x) (JS.of_nat segments); JS.of_nat 0])
      (upto segments)
    ++ flat_map (fun x => [JS.div (JS.of_nat x) (JS.of_nat segments); JS.of_nat 1])
         (upto segments).
Proof. rewrite meshLoop_rows, !meshRow_uvs. reflexivity. Qed.

Lemma meshLoop_contour p segments :
  buf_contour2D (meshLoop p segments)
  = map (fun x =>
           Point2D.mk
             (JS.mul (JS.div (JS.of_nat x) (JS.of_nat segments))
                     (JS.mul (JS.mul (Num 2) Math.PI) (DepthSolver.R2_outer p)))
             (DepthSolver.meshDepth (DepthSolver.R2_effective p)
                (DepthSolver.R2_outer p) p (meshAlpha segments x)))
        (upto segments).
Proof.
  rewrite meshLoop_rows, !meshRow_contour. cbn [Nat.eqb buf_contour2D app].
  rewrite app_nil_r. reflexivity.
Qed.

Lemma flat_map_pairs_length {A B : Type} (f g : A -> B) (xs : list A) :
  List.length (flat_map (fun a => [f a; g a]) xs) = 2 * List.length xs.
Proof. induction xs as [|a xs IH]; [reflexivity | simpl; rewrite IH; lia]. Qed.

Lemma ratio_in_unit (segments x : nat) :
  1 <= segments -> x <= segments -> (0 <= INR x / INR segments <= 1)%R.
Proof.
  intros Hs Hx. assert (Hpos : (0 < INR segments)%R) by (apply lt_0_INR; lia).
  pose proof (pos_INR x) as H0. pose proof (le_INR x segments Hx) as H1.
  split.
  - apply Rmult_le_pos; [exact H0 | left; apply Rinv_0_lt_compat; exact Hpos].
  - apply (Rmult_le_reg_r (INR segments)); [exact Hpos|].
    unfold Rdiv. rewrite Rmult_assoc, Rinv_l by lra. lra.
Qed.

(** X4. A valid result of [calculateNotchGeometry] has two UV numbers per
    vertex and one contour point per column; with at least one segment
    every UV number lies in the unit interval. *)
Theorem X4_mesh_uvs_and_contour (params : PipeParameters) (segments : nat) :
  isValid (calculateNotchGeometry params segments) = true ->
  List.length (uvs (calculateNotchGeometry params segments))
  = 2 * List.length (vertices (calculateNotchGeometry params segments))
  /\ (exists contour,
         contour2D (calculateNotchGeometry params segments) = Some contour
         /\ List.length contour = segments + 1)
  /\ (1 <= segments ->
      forall u, In u (uvs (calculateNotchGeometry params segments)) ->
                exists r : R, u = Num r /\ (0 <= r <= 1)%R).
Proof.
  intros H. rewrite (valid_vertices_length params segments H).
  destruct (valid_result params segments H) as (-> & _). cbn [uvs contour2D].
  split; [|split].
  - rewrite meshLoop_uvs, length_app, !flat_map_pairs_length, upto_length. lia.
  - eexists. split; [reflexivity|].
    rewrite meshLoop_contour, length_map, upto_length. lia.
  - intros Hs u Hu. rewrite meshLoop_uvs in Hu. apply in_app_or in Hu.
    assert (Hrow : forall y, y <= 1 ->
      In u (flat_map (fun x => [JS.div (JS.of_nat x) (JS.of_nat segments); JS.of_nat y])
              (upto segments)) ->
      exists r : R, u = Num r /\ (0 <= r <= 1)%R).
    { intros y Hy Hin. apply in_flat_map in Hin. destruct Hin as (x & Hx & Hin).
      apply in_upto in Hx. destruct Hin as [<- | [<- | []]].
      - rewrite (ratio_Num segments x Hs). eexists. split; [reflexivity|].
        apply ratio_in_unit; assumption.
      - exists (INR y). split; [reflexivity|].
        destruct y as [|[|y]]; simpl; try lra. lia. }
    destruct Hu as [Hu | Hu]; [apply (Hrow 0) | apply (Hrow 1)]; auto.
Qed.

Lemma X4_mesh_uvs_and_contour_witness :
  List.length (uvs (calculateNotchGeometry scenarioA 128))
  = 2 * List.length (vertices (calculateNotchGeometry scenarioA 128)).
Proof.
  apply (X4_mesh_uvs_and_contour scenarioA 128).
  apply scenarioA_mesh_valid. lia.
Defined.

Lemma strides3_exact (m : nat) : strides3 (3 * m) = map (fun k => 3 * k) (below m).
Proof.
  unfold strides3. replace ((3 * m + 2) / 3) with m; [reflexivity|].
  replace (3 * m + 2) with (2 + m * 3) by lia. rewrite Nat.div_add by lia. reflexivity.
Qed.

Lemma structuredVertices_map (vs : list number) (m : nat) :
  List.length vs = 3 * m ->
  structuredVertices vs
  = map (fun k => Point3D.mk (at_index vs (3 * k)) (at_index vs (3 * k + 1))
                             (at_index vs (3 * k + 2)))
        (below m).
Proof.
  intros H. unfold structuredVertices. rewrite push_loop, H, strides3_exact.
  simpl app. rewrite flat_map_singleton, map_map. reflexivity.
Qed.

Lemma add_degToRad_0 (a : number) : JS.add a (MathUtils.degToRad (Num 0)) = a.
Proof.
  rewrite degToRad_Num. destruct a; simpl; try reflexivity.
  f_equal. unfold Rdiv. ring.
Qed.

(** X6. The contour the mesh function stores is the raw contour of the
    export function at the same resolution, when the seam angle is 0 and
    no column sits exactly on the tolerance [-0.1] (where the mesh
    clamps and the export skips). *)
Theorem X6_mesh_contour_is_export_contour (params : PipeParameters) (segments : nat) :
  startAngle params = Num 0 ->
  isValid (calculateNotchGeometry params segments) = true ->
  (forall x, x <= segments -> meshTerm params segments x <> Num (-0.1)) ->
  contour2D (calculateNotchGeometry params segments)
  = Some (pipe2DRaw params segments).
Proof.
  intros Hstart Hvalid Hedge.
  destruct (valid_result params segments Hvalid) as (-> & Hno). cbn [contour2D].
  f_equal. rewrite meshLoop_contour. unfold pipe2DRaw.
  rewrite sample_loop_flat_map, app_nil_l.
  rewrite <- flat_map_singleton. apply flat_map_pointwise.
  intros x Hx. apply in_upto in Hx.
  rewrite pipe2DBody_contourSample. unfold DepthSolver.contourSample.
  rewrite Hstart, add_degToRad_0. fold (meshAlpha segments x).
  unfold DepthSolver.contourDepth, DepthSolver.meshDepth.
  change (DepthSolver.term (JS.div (d1 params) (Num 2)) (DepthSolver.R2_effective params)
            (offset params) (meshAlpha segments x))
    with (meshTerm params segments x).
  pose proof (proj1 (noIntersection_false_iff params segments) Hno x Hx) as Hok.
  specialize (Hedge x Hx). cbv zeta.
  destruct (JS.lt (meshTerm params segments x) (Num 0)) eqn:E; [|reflexivity].
  assert (Hgt : JS.gt (meshTerm params segments x) (Num (-0.1)) = true).
  { unfold JS.gt. destruct (meshTerm params segments x); simpl in *; try discriminate.
    apply Rltb_true. apply Rltb_false_le in Hok.
    destruct (Req_dec_T r (-0.1)) as [-> | Hne]; [congruence | lra]. }
  rewrite Hgt. reflexivity.
Qed.

Lemma X6_mesh_contour_is_export_contour_witness :
  contour2D (calculateNotchGeometry scenarioA 128) = Some (pipe2DRaw scenarioA 128).
Proof.
  apply (X6_mesh_contour_is_export_contour scenarioA 128).
  - reflexivity.
  - apply scenarioA_mesh_valid. lia.
  - intros x Hx Heq.
    pose proof (scenarioA_samples_ok 128 ltac:(lia) x Hx) as Hge.
    rewrite (meshTerm_finite scenarioA 128 x eq_refl ltac:(lia)) in Heq.
    injection Heq as Heq. revert Heq. unfold rTerm, rR1, rR2_calc, rR2_outer. simpl.
    pose proof (SIN_bound (rAlpha 128 x)) as [Hlo Hhi].
    set (s := sin (rAlpha 128 x)) in *. intros Heq. nra.
Defined.

(** ** The viewer: [SeamLine.tsx] and [BranchPipe.tsx] *)

Lemma skipn_nth_error {A : Type} (vs : list A) (a : nat) (v : A) :
  nth_error vs a = Some v -> skipn a vs = v :: skipn (S a) vs.
Proof.
  revert vs. induction a as [|a IH]; intros [|w vs] H; simpl in H; try discriminate.
  - injection H as ->. reflexivity.
  - simpl. apply IH. exact H.
Qed.

Lemma extractSeam_loop (vs : list Point3D.t) (len a : nat) (acc : list Point3D.t) :
  a + len <= List.length vs ->
  for_each (seq a len)
    (fun i acc =>
       match acc, nth_error vs i with
       | Some seamPoints, Some v =>
           Some (seamPoints ++ [Point3D.mk (Point3D.x v) (Point3D.y v) (Point3D.z v)])
       | _, _ => None
       end)
    (Some acc)
  = Some (acc ++ firstn len (skipn a vs)).
Proof.
  revert a acc. induction len as [|len IH]; intros a acc H.
  - simpl. rewrite app_nil_r. reflexivity.
  - cbn [seq]. rewrite for_each_cons.
    destruct (nth_error vs a) as [v|] eqn:E.
    + rewrite IH by lia. rewrite (skipn_nth_error vs a v E). cbn [firstn].
      rewrite <- app_assoc. destruct v. reflexivity.
    + apply nth_error_None in E. lia.
Qed.

(** X7. The seam-line memo never reads past the vertex array: for a
    valid mesh it holds the first 129 vertices (the cut edge), for an
    invalid one it is hidden; the [TypeError] of an [undefined] vertex
    cannot occur. *)
Theorem X7_seamLine_is_cut_edge (params : PipeParameters) :
  SeamLine.memo params
  = (if isValid (calculateNotchGeometry params 128)
     then SeamLine.Seam (firstn 129 (vertices (calculateNotchGeometry params 128)))
     else SeamLine.Hidden)
  /\ SeamLine.memo params <> SeamLine.Thrown.
Proof.
  assert (H : SeamLine.memo params
              = (if isValid (calculateNotchGeometry params 128)
                 then SeamLine.Seam (firstn 129 (vertices (calculateNotchGeometry params 128)))
                 else SeamLine.Hidden)).
  { unfold SeamLine.memo. cbv zeta.
    destruct (isValid (calculateNotchGeometry params 128)) eqn:E; [|reflexivity].
    cbn [negb]. unfold SeamLine.extractSeam, SeamLine.segmentCount, upto.
    rewrite (extractSeam_loop _ 129 0 []).
    - reflexivity.
    - rewrite (valid_vertices_length params 128 E). lia. }
  split; [exact H|]. rewrite H.
  destruct (isValid (calculateNotchGeometry params 128)); discriminate.
Qed.

Lemma store_app (fround : number -> number) (pre : list number) (k : nat)
    (v : number) (l : list number) :
  BranchPipe.store fround (List.length pre + k) v (pre ++ l)
  = pre ++ BranchPipe.store fround k v l.
Proof. induction pre as [|a pre IH]; [reflexivity | simpl; rewrite IH; reflexivity]. Qed.

Lemma positions_loop (fround : number -> number) (vs : list Point3D.t) :
  forall (k : nat) (pre : list number),
    List.length pre = k * 3 ->
    for_each (combine vs (seq k (List.length vs)))
      (fun vi positions =>
         let v := fst vi in
         let i := snd vi in
         BranchPipe.store fround (i * 3 + 2) (Point3D.z v)
           (BranchPipe.store fround (i * 3 + 1) (Point3D.y v)
              (BranchPipe.store fround (i * 3) (Point3D.x v) positions)))
      (pre ++ BranchPipe.zeros (List.length vs * 3))
    = pre ++ map fround
               (flat_map (fun v => [Point3D.x v; Point3D.y v; Point3D.z v]) vs).
Proof.
  induction vs as [|v vs IH]; intros k pre Hpre.
  - reflexivity.
  - cbn [List.length seq combine]. rewrite for_each_cons. cbn [fst snd]. cbv zeta.
    change (BranchPipe.zeros (S (List.length vs) * 3))
      with (Num 0 :: Num 0 :: Num 0 :: BranchPipe.zeros (List.length vs * 3)).
    rewrite <- Hpre.
    replace (List.length pre) with (List.length pre + 0) at 3 by lia.
    rewrite !store_app. cbn [BranchPipe.store].
    replace (pre ++ fround (Point3D.x v) :: fround (Point3D.y v) :: fround (Point3D.z v)
                 :: BranchPipe.zeros (List.length vs * 3))
      with ((pre ++ [fround (Point3D.x v); fround (Point3D.y v); fround (Point3D.z v)])
              ++ BranchPipe.zeros (List.length vs * 3))
      by (rewrite <- app_assoc; reflexivity).
    rewrite (IH (S k)).
    + rewrite <- app_assoc. reflexivity.
    + rewrite length_app. simpl. lia.
Qed.

Lemma flat_map_after_map {A B C : Type} (f : B -> list C) (g : A -> B) (xs : list A) :
  flat_map f (map g xs) = flat_map (fun a => f (g a)) xs.
Proof. induction xs as [|a xs IH]; [reflexivity | simpl; rewrite IH; reflexivity]. Qed.

Lemma triples_flat (m : nat) :
  forall vs : list number,
    List.length vs = 3 * m ->
    flat_map (fun k => [at_index vs (3 * k); at_index vs (3 * k + 1);
                        at_index vs (3 * k + 2)]) (seq 0 m)
    = vs.
Proof.
  induction m as [|m IH]; intros vs H.
  - destruct vs; [reflexivity | simpl in H; lia].
  - destruct vs as [|a [|b [|c rest]]]; simpl in H; try lia.
    cbn [seq flat_map]. rewrite <- seq_shift, flat_map_after_map.
    change ([at_index (a :: b :: c :: rest) (3 * 0);
             at_index (a :: b :: c :: rest) (3 * 0 + 1);
             at_index (a :: b :: c :: rest) (3 * 0 + 2)]) with [a; b; c].
    cbn [app]. do 3 f_equal.
    etransitivity; [|apply (IH rest); lia].
    apply flat_map_pointwise. intros k _.
    replace (3 * S k) with (S (S (S (3 * k)))) by lia. reflexivity.
Qed.

(** X8. The position buffer of the branch mesh holds the rounded
    coordinates of the vertices, in order and with no slot left at its
    initial zero; on a valid result it is the rounded flat vertex array
    the engine built before it grouped the numbers into points. *)
Theorem X8_positions_are_rounded_vertices (fround : number -> number)
    (params : PipeParameters) :
  (forall vs : list Point3D.t,
      BranchPipe.positionsOf fround vs
      = map fround (flat_map (fun v => [Point3D.x v; Point3D.y v; Point3D.z v]) vs))
  /\ (isValid (calculateNotchGeometry params 128) = true ->
      BranchPipe.positionsOf fround (vertices (calculateNotchGeometry params 128))
      = map fround (buf_vertices (meshLoop params 128))).
Proof.
  assert (G : forall vs : list Point3D.t,
      BranchPipe.positionsOf fround vs
      = map fround (flat_map (fun v => [Point3D.x v; Point3D.y v; Point3D.z v]) vs)).
  { intros vs. unfold BranchPipe.positionsOf, BranchPipe.indexed.
    apply (positions_loop fround vs 0 []). reflexivity. }
  split; [exact G|]. intros E. rewrite G. f_equal.
  destruct (valid_result params 128 E) as (-> & _). cbn [vertices].
  pose proof (meshLoop_vertices params 128) as Hlen.
  rewrite (structuredVertices_map _ 258) by (rewrite Hlen; lia).
  rewrite flat_map_after_map. cbn [Point3D.x Point3D.y Point3D.z].
  apply triples_flat. rewrite Hlen. lia.
Qed.

Lemma X8_positions_are_rounded_vertices_witness :
  BranchPipe.positionsOf (fun v => v) (vertices (calculateNotchGeometry scenarioA 128))
  = map (fun v => v) (buf_vertices (meshLoop scenarioA 128)).
Proof.
  apply (X8_positions_are_rounded_vertices (fun v => v) scenarioA).
  apply scenarioA_mesh_valid. lia.
Defined.

(** X9. The error the branch component reports is one of the two
    messages of the engine, or none for a valid mesh: the fallback
    ["Unknown Error"] is never shown. *)
Theorem X9_newError_is_engine_message (params : PipeParameters) :
  (BranchPipe.newError params = None
   /\ isValid (calculateNotchGeometry params 128) = true)
  \/ (BranchPipe.newError params = Some "Invalid Diameters."%string
      /\ invalidDiameters params = true)
  \/ (BranchPipe.newError params = Some "Geometry Error: Pipes do not intersect."%string
      /\ invalidDiameters params = false
      /\ noIntersection params 128 = true).
Proof.
  unfold BranchPipe.newError, calculateNotchGeometry. cbv zeta.
  destruct (invalidDiameters params).
  - right. left. split; reflexivity.
  - destruct (noIntersection params 128).
    + right. right. repeat split; reflexivity.
    + left. split; reflexivity.
Qed.

(** ** The two copies of the contour loops: [dxf-service.ts] and the engine *)

Lemma service_hole2DBody p i :
  DxfService.hole2DBody p i = hole2DBody p 360 i.
Proof. reflexivity. Qed.

(** The hole branch of [shiftedPoints] is the normalization of the
    engine, on finite ordinates. *)
Lemma shiftPoints_hole_normalize (points : list Point2D.t) (pad : number) :
  Forall (fun q => isFinite (Point2D.y q) = true) points ->
  DxfService.shiftPoints hole pad points = normalize points pad.
Proof.
  intros Hfin. unfold DxfService.shiftPoints, normalize, minYOf. rewrite minYOf_fold.
  assert (Hys : Forall (fun v => isFinite v = true) (map Point2D.y points)).
  { rewrite Forall_map. exact Hfin. }
  destruct (min_loop _ Hys Infinity (or_introl eq_refl)) as (Hin & Hall & _ & Hm & Hfold).
  unfold Math.min. rewrite Hfold. cbv zeta.
  set (m := fold_left (fun minY v => if JS.lt v minY then v else minY)
              (map Point2D.y points) Infinity) in *.
  destruct points as [|q points]; [reflexivity|].
  assert (Hq : isFinite (Point2D.y q) = true) by (inversion Hfin; assumption).
  pose proof (Hall (Point2D.y q) (or_introl eq_refl)) as Hle.
  destruct Hm as [E | Hm].
  - rewrite E, le_Infinity_finite in Hle by exact Hq. discriminate.
  - destruct m; try discriminate. reflexivity.
Qed.

(** X12. Whenever every depth the private [calculateHole2D] of the
    service has kept is a finite number, the hole contour [generateDXF]
    serializes is the hole contour of [calculateUnrolledPoints]: the
    loop of the service followed by its [Math.min] shift gives what the
    loop and the normalization of the engine give. *)
Theorem X12_service_hole_is_engine_hole (params : PipeParameters) :
  Forall (fun q => isFinite (Point2D.y q) = true) (DxfService.calculateHole2D params) ->
  DxfService.shiftPoints hole (JS.or (paddingD1 params) (Num 0))
    (DxfService.calculateHole2D params)
  = calculateUnrolledPoints params hole.
Proof.
  intros H.
  assert (E : DxfService.calculateHole2D params = hole2DRaw params 360) by reflexivity.
  rewrite E in *. rewrite shiftPoints_hole_normalize; [reflexivity | exact H].
Qed.

Lemma X12_service_hole_is_engine_hole_witness :
  DxfService.shiftPoints hole (JS.or (paddingD1 scenarioA) (Num 0))
    (DxfService.calculateHole2D scenarioA)
  = calculateUnrolledPoints scenarioA hole.
Proof.
  apply (X12_service_hole_is_engine_hole scenarioA).
  assert (E : DxfService.calculateHole2D scenarioA = hole2DRaw scenarioA 360) by reflexivity.
  rewrite E. unfold hole2DRaw. rewrite sample_loop_flat_map, app_nil_l.
  exact (kept_samples_finite hole scenarioA eq_refl).
Defined.

(** X13. The private [calculatePipe2D] of the service is the raw pipe
    contour of the engine at 360 steps with [calcByID] forced to true:
    the two loops agree exactly when the flag is set, whatever the
    numbers are. *)
Theorem X13_service_pipe_is_engine_pipe_by_OD (params : PipeParameters) :
  DxfService.calculatePipe2D params = pipe2DRaw (withCalcByID params true) 360
  /\ (calcByID params = true ->
      DxfService.calculatePipe2D params = pipe2DRaw params 360).
Proof.
  assert (G : DxfService.calculatePipe2D params
              = pipe2DRaw (withCalcByID params true) 360).
  { unfold DxfService.calculatePipe2D, pipe2DRaw, DxfService.steps.
    apply sample_loop_ext. intros i _. apply service_pipe2DBody_as_deep_cut. }
  split; [exact G|]. intros E. rewrite G. f_equal.
  destruct params. simpl in E. subst. reflexivity.
Qed.

Lemma X13_service_pipe_is_engine_pipe_by_OD_witness :
  DxfService.calculatePipe2D scenarioA = pipe2DRaw scenarioA 360.
Proof. apply (X13_service_pipe_is_engine_pipe_by_OD scenarioA). reflexivity. Defined.

(** ** The writer: [dxf-writer.ts] *)

Lemma join_app (xs ys : list string) : join (xs ++ ys) = join xs ^^ join ys.
Proof.
  induction xs as [|x xs IH]; [reflexivity|].
  simpl. rewrite IH, append_assoc. reflexivity.
Qed.

Lemma addPolyline_appends toFixed points closed parts :
  exists added, DxfWriter.addPolyline toFixed points closed parts = parts ++ added.
Proof.
  unfold DxfWriter.addPolyline. destruct points as [|first rest].
  - exists []. rewrite app_nil_r. reflexivity.
  - cbv zeta. rewrite vertex_loop.
    destruct closed;
      [destruct (JS.gt (DxfWriter.closingDistance first (last (first :: rest) first))
                       (Num 0.001))|];
      rewrite <- ?app_assoc; eexists; reflexivity.
Qed.

Lemma call_appends toFixed c parts :
  exists added, DxfWriterCalls.call toFixed c parts = parts ++ added.
Proof.
  destruct c as [points closed | p1 p2 colorIndex | x0 y0 x1 y1];
    cbn [DxfWriterCalls.call].
  - apply addPolyline_appends.
  - unfold DxfWriter.addLine. cbv zeta.
    destruct (Nat.ltb 0 colorIndex); rewrite <- ?app_assoc; eexists; reflexivity.
  - apply addPolyline_appends.
Qed.

Lemma calls_append toFixed calls :
  forall parts,
  exists added, for_each calls (DxfWriterCalls.call toFixed) parts = parts ++ added.
Proof.
  induction calls as [|c calls IH]; intros parts.
  - exists []. rewrite app_nil_r. reflexivity.
  - rewrite for_each_cons.
    destruct (call_appends toFixed c parts) as (a1 & ->).
    destruct (IH (parts ++ a1)) as (a2 & ->).
    exists (a1 ++ a2). rewrite app_assoc. reflexivity.
Qed.

(** X15. Whatever public methods are called on a [DxfWriter], in
    whatever order and with whatever arguments, the parts already pushed
    are never changed, and [createString] returns a stream that starts
    with the [ENTITIES] section header and ends with [ENDSEC], [EOF]. *)
Theorem X15_writer_stream_is_framed (toFixed : number -> nat -> string)
    (calls : list DxfWriterCalls.Call) :
  (forall parts,
      exists added,
        for_each calls (DxfWriterCalls.call toFixed) parts = parts ++ added)
  /\ startsWith (DxfWriter.createString (DxfWriterCalls.run toFixed calls))
                (lines ["0"; "SECTION"; "2"; "ENTITIES"]%string)
  /\ endsWith (DxfWriter.createString (DxfWriterCalls.run toFixed calls))
              (lines ["0"; "ENDSEC"; "0"; "EOF"]%string).
Proof.
  split; [apply calls_append|].
  unfold DxfWriterCalls.run, DxfWriter.createString.
  destruct (calls_append toFixed calls DxfWriter.create) as (added & ->).
  split.
  - unfold startsWith, DxfWriter.create, DxfWriter.addHeader.
    rewrite <- !app_assoc. cbn [app join]. eexists. reflexivity.
  - unfold endsWith. rewrite join_app. cbn [join]. rewrite append_nil_r.
    eexists. reflexivity.
Qed.

Lemma closing_same (p : Point2D.t) :
  JS.gt (DxfWriter.closingDistance p p) (Num 0.001) = false.
Proof.
  rewrite closingDistance_euclidean. destruct p as [x y].
  destruct x as [ | | | a], y as [ | | | b]; try reflexivity.
  rewrite closing_test_finite.
  replace ((a - a) * (a - a) + (b - b) * (b - b))%R with 0%R by ring.
  rewrite sqrt_0. apply Rltb_false. lra.
Qed.

Lemma closed_loop_polyline toFixed (first : Point2D.t) (rest : list Point2D.t)
    (parts : list string) :
  List.last (first :: rest) first = first ->
  DxfWriter.addPolyline toFixed (first :: rest) true parts
  = parts ++ [DxfWriter.polylineStart true]
      ++ map (DxfWriter.vertexRecord toFixed) (first :: rest) ++ [DxfWriter.seqEnd].
Proof.
  intros H. unfold DxfWriter.addPolyline. cbv zeta.
  rewrite H, closing_same, vertex_loop, <- !app_assoc. reflexivity.
Qed.

(** X16. A closed polyline whose last point is its first point gets no
    extra closing vertex, whatever the coordinates are ([NaN] and the
    infinities included): [addRectangle] always writes exactly its five
    corners. *)
Theorem X16_closed_loop_not_repeated (toFixed : number -> nat -> string)
    (first : Point2D.t) (rest : list Point2D.t) (parts : list string) :
  List.last (first :: rest) first = first ->
  DxfWriter.addPolyline toFixed (first :: rest) true parts
  = parts ++ [DxfWriter.polylineStart true]
      ++ map (DxfWriter.vertexRecord toFixed) (first :: rest)
      ++ [DxfWriter.seqEnd]
  /\ forall x0 y0 x1 y1 : number,
      DxfWriter.addRectangle toFixed x0 y0 x1 y1 parts
      = parts ++ [DxfWriter.polylineStart true]
          ++ map (DxfWriter.vertexRecord toFixed)
               [Point2D.mk x0 y0; Point2D.mk x1 y0; Point2D.mk x1 y1;
                Point2D.mk x0 y1; Point2D.mk x0 y0]
          ++ [DxfWriter.seqEnd].
Proof.
  intros Hlast. split; [apply closed_loop_polyline; exact Hlast|].
  intros x0 y0 x1 y1. unfold DxfWriter.addRectangle.
  apply closed_loop_polyline. reflexivity.
Qed.

Lemma X16_closed_loop_not_repeated_witness :
  DxfWriter.addPolyline (fun _ _ => EmptyString)
    [Point2D.mk (Num 0) (Num 0); Point2D.mk (Num 1) (Num 0); Point2D.mk (Num 0) (Num 0)]
    true []
  = [] ++ [DxfWriter.polylineStart true]
      ++ map (DxfWriter.vertexRecord (fun _ _ => EmptyString))
           [Point2D.mk (Num 0) (Num 0); Point2D.mk (Num 1) (Num 0);
            Point2D.mk (Num 0) (Num 0)]
      ++ [DxfWriter.seqEnd].
Proof.
  apply (X16_closed_loop_not_repeated (fun _ _ => EmptyString)
           (Point2D.mk (Num 0) (Num 0))
           [Point2D.mk (Num 1) (Num 0); Point2D.mk (Num 0) (Num 0)] []).
  reflexivity.
Defined.

(** ** The download action: [useDownloadAction.ts] *)

Lemma last_snoc {A : Type} (xs : list A) (a d : A) : List.last (xs ++ [a]) d = a.
Proof.
  induction xs as [|x xs IH]; [reflexivity|].
  simpl. destruct (xs ++ [a]) eqn:E; [destruct xs; discriminate | exact IH].
Qed.

(** X17. The pipe template that is downloaded is the contour framed by
    the sheet: it starts and ends at the origin, so the writer adds no
    closing vertex and the polyline has exactly three vertices more than
    the contour; and the alert replaces the download exactly when the
    contour is empty. *)
Theorem X17_download_pipe_outline (toFixed : number -> nat -> string)
    (params : PipeParameters) (points : list Point2D.t) :
  DownloadAction.dxfParts toFixed pipe points
  = DxfWriter.create
      ++ [DxfWriter.polylineStart true]
      ++ map (DxfWriter.vertexRecord toFixed)
           ([Point2D.mk (Num 0) (Num 0)] ++ points
            ++ [Point2D.mk (Point2D.x (List.last points (Point2D.mk NaN NaN))) (Num 0);
                Point2D.mk (Num 0) (Num 0)])
      ++ [DxfWriter.seqEnd]
  /\ vertexCount (DownloadAction.dxfParts toFixed pipe points) = List.length points + 3
  /\ (forall type,
         DownloadAction.download toFixed type params = None
         <-> calculateUnrolledPoints params type = []).
Proof.
  assert (G : DownloadAction.dxfParts toFixed pipe points
    = DxfWriter.create
      ++ [DxfWriter.polylineStart true]
      ++ map (DxfWriter.vertexRecord toFixed)
           ([Point2D.mk (Num 0) (Num 0)] ++ points
            ++ [Point2D.mk (Point2D.x (List.last points (Point2D.mk NaN NaN))) (Num 0);
                Point2D.mk (Num 0) (Num 0)])
      ++ [DxfWriter.seqEnd]).
  { unfold DownloadAction.dxfParts, DownloadAction.finalPoints. cbv zeta.
    set (corner := Point2D.mk (Point2D.x (List.last points (Point2D.mk NaN NaN))) (Num 0)).
    cbn [app].
    assert (Hl : List.last (Point2D.mk (Num 0) (Num 0)
                              :: points ++ [corner; Point2D.mk (Num 0) (Num 0)])
                           (Point2D.mk (Num 0) (Num 0))
                 = Point2D.mk (Num 0) (Num 0)).
    { replace (Point2D.mk (Num 0) (Num 0)
                 :: points ++ [corner; Point2D.mk (Num 0) (Num 0)])
        with ((Point2D.mk (Num 0) (Num 0) :: points ++ [corner])
                ++ [Point2D.mk (Num 0) (Num 0)])
        by (simpl; rewrite <- app_assoc; reflexivity).
      apply last_snoc. }
    unfold DxfWriter.addPolyline. cbv zeta.
    rewrite Hl, closing_same, vertex_loop, <- !app_assoc. reflexivity. }
  split; [exact G|]. split.
  - rewrite G. rewrite !vertexCount_app, vertexCount_records, !length_app.
    cbn [List.length]. change (vertexCount DxfWriter.create) with 0.
    change (vertexCount [DxfWriter.polylineStart true]) with 0.
    change (vertexCount [DxfWriter.seqEnd]) with 0. lia.
  - intros type. unfold DownloadAction.download. cbv zeta.
    destruct (calculateUnrolledPoints params type) as [|q pts]; simpl;
      split; intros H; (reflexivity || discriminate).
Qed.

(** ** The bounds loop *)

Lemma finite_is_Num (v : number) : isFinite v = true -> exists r : R, v = Num r.
Proof. destruct v; intros H; try discriminate. eexists; reflexivity. Qed.

Lemma le_finite_NegInfinity (v : number) : isFinite v = true -> JS.le v NegInfinity = false.
Proof. destruct v; simpl; intros H; (discriminate || reflexivity). Qed.

(** One step of the maximum loop on values that are not [NaN]. *)
Lemma max_step (acc v : number) :
  isFinite v = true -> (acc = NegInfinity \/ isFinite acc = true) ->
  let m := if JS.gt v acc then v else acc in
  (m = acc \/ m = v) /\ JS.le v m = true
  /\ (acc = NegInfinity \/ JS.le acc m = true) /\ isFinite m = true
  /\ Math.max2 acc v = m.
Proof.
  intros Hv Hacc. destruct v as [ | | | b]; try discriminate.
  destruct Hacc as [-> | Hacc].
  - simpl. repeat split; auto. apply Rleb_true. lra.
  - destruct acc as [ | | | a]; try discriminate. unfold JS.gt. simpl.
    unfold Rltb. destruct (Rlt_dec a b); simpl;
      repeat split; auto;
      try (apply Rleb_true; lra); try (right; apply Rleb_true; lra).
Qed.

(** The maximum loop over finite values, from an accumulator that is
    [-Infinity] or finite. *)
Lemma max_loop (vs : list number) :
  Forall (fun v => isFinite v = true) vs ->
  forall acc, acc = NegInfinity \/ isFinite acc = true ->
  let m := fold_left (fun maxY v => if JS.gt v maxY then v else maxY) vs acc in
  (m = acc \/ In m vs)
  /\ (forall v, In v vs -> JS.le v m = true)
  /\ (acc = NegInfinity \/ JS.le acc m = true)
  /\ (m = NegInfinity \/ isFinite m = true)
  /\ fold_left Math.max2 vs acc = m.
Proof.
  induction 1 as [|v vs Hv Hvs IH]; intros acc Hacc.
  - simpl. repeat split; auto; try (intros v []).
    destruct Hacc as [E | E]; [left; exact E | right; apply le_refl_finite; exact E].
  - cbn [fold_left].
    destruct (max_step acc v Hv Hacc) as (Hm & Hle & Hacc' & Hfin & Hmax2).
    rewrite Hmax2.
    set (m1 := if JS.gt v acc then v else acc) in *.
    destruct (IH m1 (or_intror Hfin)) as (Hin & Hall & Hle1 & Hfin1 & Hfold).
    set (m := fold_left (fun maxY v => if JS.gt v maxY then v else maxY) vs m1) in *.
    assert (Hmfin : isFinite m = true).
    { destruct Hin as [-> | Hin]; [exact Hfin|].
      rewrite Forall_forall in Hvs. apply Hvs. exact Hin. }
    assert (Hmm1 : JS.le m1 m = true).
    { destruct Hle1 as [E | Hle1]; [rewrite E in Hfin; discriminate | exact Hle1]. }
    repeat split.
    + destruct Hin as [Hin | Hin].
      * destruct Hm as [E | E]; [left; congruence | right; left; congruence].
      * right. right. exact Hin.
    + intros w [<- | Hw]; [|apply Hall; exact Hw].
      apply (le_trans v m1 m Hle Hmm1).
    + destruct Hacc' as [E | Hacc']; [left; exact E | right].
      apply (le_trans acc m1 m Hacc' Hmm1).
    + right. exact Hmfin.
    + exact Hfold.
Qed.

Lemma boundsOf_folds (points : list Point2D.t) :
  forall b0 : Bounds,
    let b :=
      for_each points
        (fun p b =>
           {| minX := if JS.lt (Point2D.x p) (minX b) then Point2D.x p else minX b;
              maxX := if JS.gt (Point2D.x p) (maxX b) then Point2D.x p else maxX b;
              minY := if JS.lt (Point2D.y p) (minY b) then Point2D.y p else minY b;
              maxY := if JS.gt (Point2D.y p) (maxY b) then Point2D.y p else maxY b |})
        b0 in
    minX b = fold_left (fun acc v => if JS.lt v acc then v else acc)
               (map Point2D.x points) (minX b0)
    /\ maxX b = fold_left (fun acc v => if JS.gt v acc then v else acc)
                  (map Point2D.x points) (maxX b0)
    /\ minY b = fold_left (fun acc v => if JS.lt v acc then v else acc)
                  (map Point2D.y points) (minY b0)
    /\ maxY b = fold_left (fun acc v => if JS.gt v acc then v else acc)
                  (map Point2D.y points) (maxY b0).
Proof.
  induction points as [|p points IH]; intros b0.
  - repeat split; reflexivity.
  - cbv zeta. rewrite for_each_cons. cbn [map fold_left].
    match goal with
    | |- context [for_each points _ ?b1] => specialize (IH b1)
    end.
    cbv zeta in IH. cbn [minX maxX minY maxY] in IH. exact IH.
Qed.

Lemma min_loop_attained (vs : list number) :
  vs <> [] -> Forall (fun v => isFinite v = true) vs ->
  let m := fold_left (fun acc v => if JS.lt v acc then v else acc) vs Infinity in
  In m vs /\ forall v, In v vs -> JS.le m v = true.
Proof.
  intros Hne Hfin.
  destruct (min_loop vs Hfin Infinity (or_introl eq_refl)) as (Hin & Hall & _).
  cbv zeta in *. split; [|exact Hall].
  destruct Hin as [E | Hin]; [|exact Hin].
  destruct vs as [|v vs]; [contradiction Hne; reflexivity|].
  pose proof (Hall v (or_introl eq_refl)) as Hle.
  rewrite E, le_Infinity_finite in Hle; [discriminate|].
  inversion Hfin; assumption.
Qed.

Lemma max_loop_attained (vs : list number) :
  vs <> [] -> Forall (fun v => isFinite v = true) vs ->
  let m := fold_left (fun acc v => if JS.gt v acc then v else acc) vs NegInfinity in
  In m vs /\ forall v, In v vs -> JS.le v m = true.
Proof.
  intros Hne Hfin.
  destruct (max_loop vs Hfin NegInfinity (or_introl eq_refl)) as (Hin & Hall & _).
  cbv zeta in *. split; [|exact Hall].
  destruct Hin as [E | Hin]; [|exact Hin].
  destruct vs as [|v vs]; [contradiction Hne; reflexivity|].
  pose proof (Hall v (or_introl eq_refl)) as Hle.
  rewrite E, le_finite_NegInfinity in Hle; [discriminate|].
  inversion Hfin; assumption.
Qed.

Lemma finitePoints_coordinates (points : list Point2D.t) :
  Forall (fun p => finitePoint p = true) points ->
  Forall (fun v => isFinite v = true) (map Point2D.x points)
  /\ Forall (fun v => isFinite v = true) (map Point2D.y points).
Proof.
  intros H. rewrite !Forall_map. split; eapply Forall_impl; try exact H;
    intros p Hp; unfold finitePoint in Hp; apply andb_true_iff in Hp; tauto.
Qed.

(** X19. On a non-empty list of finite points the bounds loop of the
    download action and of the PDF generator returns the bounding box:
    every point lies between the bounds, and each bound is the
    coordinate of some point. *)
Theorem X19_bounds_are_bounding_box (points : list Point2D.t) :
  points <> [] ->
  Forall (fun p => finitePoint p = true) points ->
  (forall p, In p points ->
             JS.le (minX (boundsOf points)) (Point2D.x p) = true
             /\ JS.le (Point2D.x p) (maxX (boundsOf points)) = true
             /\ JS.le (minY (boundsOf points)) (Point2D.y p) = true
             /\ JS.le (Point2D.y p) (maxY (boundsOf points)) = true)
  /\ In (minX (boundsOf points)) (map Point2D.x points)
  /\ In (maxX (boundsOf points)) (map Point2D.x points)
  /\ In (minY (boundsOf points)) (map Point2D.y points)
  /\ In (maxY (boundsOf points)) (map Point2D.y points).
Proof.
  intros Hne Hfin.
  destruct (finitePoints_coordinates points Hfin) as (Hxs & Hys).
  assert (Hnx : map Point2D.x points <> []) by (destruct points; [congruence | discriminate]).
  assert (Hny : map Point2D.y points <> []) by (destruct points; [congruence | discriminate]).
  destruct (boundsOf_folds points
              {| minX := Infinity; maxX := NegInfinity;
                 minY := Infinity; maxY := NegInfinity |}) as (E1 & E2 & E3 & E4).
  fold (boundsOf points) in E1, E2, E3, E4. cbn [minX maxX minY maxY] in E1, E2, E3, E4.
  rewrite E1, E2, E3, E4.
  destruct (min_loop_attained _ Hnx Hxs) as (I1 & A1).
  destruct (max_loop_attained _ Hnx Hxs) as (I2 & A2).
  destruct (min_loop_attained _ Hny Hys) as (I3 & A3).
  destruct (max_loop_attained _ Hny Hys) as (I4 & A4).
  split; [|tauto].
  intros p Hp. repeat split;
    [apply A1 | apply A2 | apply A3 | apply A4]; apply in_map; exact Hp.
Qed.

Lemma X19_bounds_are_bounding_box_witness :
  In (maxX (boundsOf [Point2D.mk (Num 0) (Num 1); Point2D.mk (Num 2) (Num 0)]))
     (map Point2D.x [Point2D.mk (Num 0) (Num 1); Point2D.mk (Num 2) (Num 0)]).
Proof.
  apply (X19_bounds_are_bounding_box
           [Point2D.mk (Num 0) (Num 1); Point2D.mk (Num 2) (Num 0)]).
  - discriminate.
  - repeat constructor.
Defined.

(** ** The offset field: [Sidebar.tsx] and [DebouncedInput.tsx] *)

Lemma clamped_at_zero (x : number) :
  exists r : R,
    (if negb (isFinite x) then Num 0 else Math.max2 (Num 0) x) = Num r
    /\ (0 <= r)%R
    /\ (forall a : R, x = Num a -> (0 <= a)%R -> r = a).
Proof.
  destruct x as [ | | | a]; simpl;
    try (exists 0%R; repeat split; try lra; intros; discriminate).
  unfold Rltb. destruct (Rlt_dec 0 a).
  - exists a. repeat split; try lra. intros b Hb _. congruence.
  - exists 0%R. repeat split; try lra. intros b Hb Hpos. injection Hb as <-. lra.
Qed.

Lemma clampOffset_range (r : R) (val : number) :
  (0 <= r)%R -> val <> NaN ->
  exists c : R,
    Sidebar.clampOffset (Num r) val = Num c /\ (- r <= c <= r)%R
    /\ (forall v : R, val = Num v -> (- r <= v <= r)%R -> c = v).
Proof.
  intros Hr Hval. unfold Sidebar.clampOffset.
  destruct val as [ | | | v]; [contradiction Hval; reflexivity | | |]; simpl.
  - unfold Rltb. destruct (Rlt_dec (- r) r);
      eexists; (split; [reflexivity|]); split; try lra; intros; discriminate.
  - unfold Rltb. destruct (Rlt_dec (- r) r);
      eexists; (split; [reflexivity|]); split; try lra; intros; discriminate.
  - unfold Rltb. destruct (Rlt_dec v r); simpl.
    + destruct (Rlt_dec (- r) v); eexists; (split; [reflexivity|]); split; try lra;
        intros w Hw Hrange; injection Hw as <-; lra.
    + destruct (Rlt_dec (- r) r); eexists; (split; [reflexivity|]); split; try lra;
        intros w Hw Hrange; injection Hw as <-; lra.
Qed.

(** X20. The memo [maxOffset] of the sidebar is a finite number that is
    not negative, whatever the stored dimensions are ([NaN] and the
    infinities included), and the clamp of the offset field maps every
    value that is not [NaN] into [[-maxOffset, maxOffset]]. *)
Theorem X20_offset_clamp_range (d1 d2 thickness : number) (calcByID : bool) :
  exists r : R,
    Sidebar.maxOffset d1 d2 thickness calcByID = Num r
    /\ (0 <= r)%R
    /\ forall val : number,
        val <> NaN ->
        exists c : R,
          Sidebar.clampOffset (Sidebar.maxOffset d1 d2 thickness calcByID) val = Num c
          /\ (- r <= c <= r)%R.
Proof.
  unfold Sidebar.maxOffset. cbv zeta.
  match goal with
  | |- context [negb (isFinite ?x)] => destruct (clamped_at_zero x) as (r & -> & Hr & _)
  end.
  exists r. split; [reflexivity|]. split; [exact Hr|].
  intros val Hval. destruct (clampOffset_range r val Hr Hval) as (c & Hc & Hrange & _).
  exists c. split; assumption.
Qed.

Lemma commit_some (parsed value : number) (min max : option number) (v : number) :
  DebouncedInput.commit parsed value min max = Some v ->
  v = parsed /\ JS.isNaN v = false /\ JS.strict_eq v value = false
  /\ (forall m, min = Some m -> JS.lt v m = false)
  /\ (forall m, max = Some m -> JS.gt v m = false).
Proof.
  unfold DebouncedInput.commit.
  destruct (JS.isNaN parsed) eqn:E1; [discriminate|].
  destruct (JS.strict_eq parsed value) eqn:E2; [discriminate|].
  destruct min as [lo|], max as [hi|];
    repeat match goal with
           | |- context [if ?c then _ else _] => destruct c eqn:?
           end;
    try discriminate; intros Hv; injection Hv as <-;
    repeat split; auto; intros m Hm; try discriminate; injection Hm as <-; assumption.
Qed.

(** X22. What the debounced inputs of the sidebar commit is fit for the
    engine: a diameter committed by an input with [min = 1] passes the
    diameter guard of [calculateNotchGeometry], and an offset committed
    by the input bounded by [-maxOffset] and [maxOffset] is left
    unchanged by the clamp of its handler. *)
Theorem X22_committed_values_fit_engine (p : PipeParameters)
    (parsed1 value1 parsed2 value2 : number)
    (parsed value v : number) (r : R) :
  DebouncedInput.commit parsed1 value1 (Some (Num 1)) None = Some (d1 p) ->
  DebouncedInput.commit parsed2 value2 (Some (Num 1)) None = Some (d2 p) ->
  DebouncedInput.commit parsed value (Some (JS.neg (Num r))) (Some (Num r)) = Some v ->
  invalidDiameters p = false
  /\ Sidebar.clampOffset (Num r) v = v.
Proof.
  intros H1 H2 H3.
  apply commit_some in H1. destruct H1 as (_ & N1 & _ & L1 & _).
  apply commit_some in H2. destruct H2 as (_ & N2 & _ & L2 & _).
  apply commit_some in H3. destruct H3 as (_ & N3 & _ & L3 & G3).
  specialize (L1 _ eq_refl). specialize (L2 _ eq_refl).
  specialize (L3 _ eq_refl). specialize (G3 _ eq_refl).
  split.
  - unfold invalidDiameters, JS.not.
    destruct (d1 p) as [ | | | a]; simpl in *; try discriminate;
      destruct (d2 p) as [ | | | b]; simpl in *; try discriminate;
      try reflexivity; rcases.
  - unfold Sidebar.clampOffset, JS.gt in *.
    destruct v as [ | | | c]; simpl in *; try discriminate.
    unfold Rltb in *.
    destruct (Rlt_dec c (- r)); [discriminate|].
    destruct (Rlt_dec r c); [discriminate|].
    destruct (Rlt_dec c r); simpl.
    + destruct (Rlt_dec (- r) c); [reflexivity | f_equal; lra].
    + destruct (Rlt_dec (- r) r); [f_equal; lra | f_equal; lra].
Qed.

Lemma X22_committed_values_fit_engine_witness :
  invalidDiameters scenarioA = false
  /\ Sidebar.clampOffset (Num 25) (Num 10) = Num 10.
Proof.
  apply (X22_committed_values_fit_engine scenarioA
           (Num 100) (Num 90) (Num 50) (Num 40) (Num 10) (Num 0) (Num 10) 25%R).
  - unfold DebouncedInput.commit. simpl. rcases.
  - unfold DebouncedInput.commit. simpl. rcases.
  - unfold DebouncedInput.commit, JS.gt. simpl. rcases.
Defined.

(** ** The contours along the sheet: the [x] coordinates *)

Lemma normalize_x (points : list Point2D.t) (pad : number) :
  map Point2D.x (normalize points pad) = []
  \/ map Point2D.x (normalize points pad) = map Point2D.x points.
Proof.
  unfold normalize. cbv zeta. destruct (JS.strict_eq (minYOf points) Infinity).
  - left. reflexivity.
  - right. rewrite map_map. reflexivity.
Qed.

Lemma pipe2DBody_x p steps i q (c : R) :
  1 <= steps -> circumference p = Num c ->
  pipe2DBody p steps i = Some q ->
  Point2D.x q = Num (INR i / INR steps * c).
Proof.
  intros Hs Hc. unfold pipe2DBody. cbv zeta.
  rewrite (ratio_Num steps i Hs), Hc.
  destruct (lengthToTouch p (effAngleOf p steps i)); [|discriminate].
  intros [= <-]. reflexivity.
Qed.

(** The [x] coordinates of the kept samples: the arc lengths of the
    sample numbers that were not skipped. *)
Lemma pipe_xs_filter p steps (xs : list nat) (c : R) :
  1 <= steps -> circumference p = Num c ->
  map Point2D.x (flat_map (fun i => kept (pipe2DBody p steps i)) xs)
  = map (fun i => Num (INR i / INR steps * c))
        (filter (fun i => match pipe2DBody p steps i with
                          | Some _ => true | None => false end) xs).
Proof.
  intros Hs Hc. induction xs as [|i xs IH]; [reflexivity|].
  cbn [flat_map filter]. rewrite map_app, IH.
  destruct (pipe2DBody p steps i) as [q|] eqn:E; [|reflexivity].
  cbn [kept map app]. rewrite (pipe2DBody_x p steps i q c Hs Hc E). reflexivity.
Qed.

Lemma seq_sorted (a n : nat) : StronglySorted lt (seq a n).
Proof.
  revert a. induction n as [|n IH]; intros a; [constructor|].
  cbn [seq]. constructor; [apply IH|].
  apply Forall_forall. intros b Hb. apply in_seq in Hb. lia.
Qed.

Lemma sorted_map_filter {B : Type} (rel : B -> B -> Prop) (g : nat -> B)
    (keep : nat -> bool) (xs : list nat) :
  (forall a b, In a xs -> In b xs -> a < b -> rel (g a) (g b)) ->
  StronglySorted lt xs ->
  StronglySorted rel (map g (filter keep xs)).
Proof.
  intros Hmono Hs. induction Hs as [|a xs Hs IH Hall]; [constructor|].
  assert (IH' : StronglySorted rel (map g (filter keep xs))).
  { apply IH. intros u v Hu Hv. apply Hmono; right; assumption. }
  cbn [filter]. destruct (keep a); [|exact IH'].
  cbn [map]. constructor; [exact IH'|].
  apply Forall_forall. intros v Hv. apply in_map_iff in Hv.
  destruct Hv as (b & <- & Hb). apply filter_In in Hb. destruct Hb as (Hb & _).
  rewrite Forall_forall in Hall.
  apply Hmono; [left; reflexivity | right; exact Hb | apply Hall; exact Hb].
Qed.

Lemma arc_length_bounds (c : R) (steps i : nat) :
  (0 <= c)%R -> 1 <= steps -> i <= steps ->
  (0 <= INR i / INR steps * c <= c)%R.
Proof.
  intros Hc Hs Hi. pose proof (ratio_in_unit steps i Hs Hi) as (Hlo & Hhi).
  set (t := (INR i / INR steps)%R) in *.
  split; [apply Rmult_le_pos; lra | nra].
Qed.

Lemma arc_length_monotone (c : R) (steps a b : nat) :
  (0 <= c)%R -> 1 <= steps -> a < b ->
  (INR a / INR steps * c <= INR b / INR steps * c)%R.
Proof.
  intros Hc Hs Hab.
  assert (Hpos : (0 < INR steps)%R) by (apply lt_0_INR; lia).
  assert (Hle : (INR a <= INR b)%R) by (apply le_INR; lia).
  apply Rmult_le_compat_r; [exact Hc|].
  unfold Rdiv. apply Rmult_le_compat_r; [left; apply Rinv_0_lt_compat; exact Hpos | exact Hle].
Qed.

(** X10. Whenever the circumference [2 * Math.PI * R2_draw] of the
    branch is a finite number that is not negative, the pipe template
    runs from left to right: the [x] coordinates of
    [calculateUnrolledPoints(params, 'pipe')] never decrease along the
    array, and each lies between 0 and the circumference, skipped
    samples or not. *)
Theorem X10_pipe_contour_runs_left_to_right (p : PipeParameters) :
  isFinite (circumference p) = true ->
  JS.le (Num 0) (circumference p) = true ->
  StronglySorted (fun u v => JS.le u v = true)
                 (map Point2D.x (calculateUnrolledPoints p pipe))
  /\ Forall (fun u => JS.le (Num 0) u = true /\ JS.le u (circumference p) = true)
            (map Point2D.x (calculateUnrolledPoints p pipe)).
Proof.
  intros Hfin Hpos.
  destruct (finite_is_Num _ Hfin) as (c & Hc). rewrite Hc in *.
  simpl in Hpos. apply Rleb_iff in Hpos.
  rewrite (calculateUnrolledPoints_normalize pipe p).
  destruct (normalize_x (flat_map (fun i => kept (unrolledBody pipe p i)) (upto 360))
              (unrolledPadding pipe p)) as [-> | ->]; [split; constructor|].
  cbn [unrolledBody]. rewrite (pipe_xs_filter p 360 _ c ltac:(lia) Hc). split.
  - apply sorted_map_filter; [|apply seq_sorted].
    intros a b _ _ Hab. simpl. apply Rleb_true.
    apply (arc_length_monotone c 360 a b Hpos); lia.
  - apply Forall_forall. intros u Hu. apply in_map_iff in Hu.
    destruct Hu as (i & <- & Hi). apply filter_In in Hi. destruct Hi as (Hi & _).
    apply in_upto in Hi.
    destruct (arc_length_bounds c 360 i Hpos ltac:(lia) Hi) as (Hlo & Hhi).
    split; simpl; apply Rleb_true; assumption.
Qed.

Lemma scenarioA_circumference : circumference scenarioA = Num (2 * PI * (50 / 2)).
Proof.
  unfold circumference, R2_draw, R2_outer, scenarioA. cbn [d2].
  rewrite div_Num by lra. reflexivity.
Qed.

Lemma X10_pipe_contour_runs_left_to_right_witness :
  StronglySorted (fun u v => JS.le u v = true)
                 (map Point2D.x (calculateUnrolledPoints scenarioA pipe)).
Proof.
  apply (X10_pipe_contour_runs_left_to_right scenarioA).
  - rewrite scenarioA_circumference. reflexivity.
  - rewrite scenarioA_circumference. simpl. apply Rleb_true.
    pose proof PI_RGT_0. lra.
Defined.








(** ** The flipped pipe template of [generateDXF] *)

Lemma shiftPoints_pipe_finite (points : list Point2D.t) (pad : R) :
  points <> [] ->
  Forall (fun q => isFinite (Point2D.y q) = true) points ->
  let out := DxfService.shiftPoints pipe (Num pad) points in
  map Point2D.x out = map Point2D.x points
  /\ (exists q, In q out /\ Point2D.y q = Num pad)
  /\ (forall q, In q out -> JS.le (Num pad) (Point2D.y q) = true).
Proof.
  intros Hne Hfin. cbv zeta.
  assert (Hys : Forall (fun v => isFinite v = true) (map Point2D.y points)).
  { rewrite Forall_map. exact Hfin. }
  assert (Hny : map Point2D.y points <> []) by (destruct points; [congruence | discriminate]).
  destruct (max_loop_attained _ Hny Hys) as (Hin & Hall).
  destruct (max_loop _ Hys NegInfinity (or_introl eq_refl)) as (_ & _ & _ & _ & Hfold).
  cbv zeta in Hin, Hall, Hfold.
  unfold DxfService.shiftPoints, Math.max. rewrite Hfold.
  set (m := fold_left (fun maxY v => if JS.gt v maxY then v else maxY)
              (map Point2D.y points) NegInfinity) in *.
  rewrite Forall_forall in Hfin.
  split; [rewrite map_map; reflexivity|]. split.
  - apply in_map_iff in Hin. destruct Hin as (q0 & Hq0 & Hin0).
    exists (Point2D.mk (Point2D.x q0) (JS.add (JS.sub m (Point2D.y q0)) (Num pad))).
    split; [apply in_map_iff; exists q0; split; [reflexivity | exact Hin0]|].
    cbn [Point2D.y]. rewrite Hq0.
    destruct (finite_is_Num m) as (M & ->).
    { rewrite <- Hq0. apply Hfin. exact Hin0. }
    simpl. f_equal. ring.
  - intros q Hq. apply in_map_iff in Hq. destruct Hq as (q0 & <- & Hin0).
    cbn [Point2D.y].
    pose proof (Hall (Point2D.y q0) (in_map Point2D.y _ _ Hin0)) as Hle.
    destruct (finite_is_Num (Point2D.y q0) (Hfin q0 Hin0)) as (y0 & Ey). rewrite Ey in *.
    destruct m as [ | | | M]; simpl in Hle; try discriminate.
    + simpl. reflexivity.
    + apply Rleb_iff in Hle. simpl. apply Rleb_true. lra.
Qed.

(** X14. The pipe template of [generateDXF] is flipped onto its
    padding: whenever every depth the private [calculatePipe2D] has kept
    is a finite number and [paddingD2] is a finite number or missing,
    the points the service shifts ([maxY - y + pad]) keep their [x],
    none of them lies below the padding, and the deepest point of the
    cut sits exactly on it. *)
Theorem X14_service_pipe_flipped_onto_padding (p : PipeParameters) :
  Forall (fun q => isFinite (Point2D.y q) = true) (DxfService.calculatePipe2D p) ->
  finiteOrMissing (paddingD2 p) = true ->
  DxfService.calculatePipe2D p <> [] ->
  let pad := JS.or (paddingD2 p) (Num 0) in
  let out := DxfService.shiftPoints pipe pad (DxfService.calculatePipe2D p) in
  map Point2D.x out = map Point2D.x (DxfService.calculatePipe2D p)
  /\ (exists q, In q out /\ Point2D.y q = pad)
  /\ (forall q, In q out -> JS.le pad (Point2D.y q) = true).
Proof.
  intros H Hpad Hne. cbv zeta.
  destruct (or_zero_finite (paddingD2 p) Hpad) as (pad & ->).
  apply shiftPoints_pipe_finite; assumption.
Qed.

Lemma scenarioA_service_pipe_raw :
  DxfService.calculatePipe2D scenarioA = pipe2DRaw scenarioA 360.
Proof.
  unfold DxfService.calculatePipe2D, pipe2DRaw, DxfService.steps.
  apply sample_loop_ext. intros i _. apply service_pipe2DBody_as_deep_cut.
Qed.

Lemma scenarioA_service_pipe_nonempty : DxfService.calculatePipe2D scenarioA <> [].
Proof.
  rewrite scenarioA_service_pipe_raw. unfold pipe2DRaw.
  destruct (pipe_first_sample_kept scenarioA eq_refl) as (pt & Hpt).
  - reflexivity.
  - unfold rR1. simpl. lra.
  - apply (first_sample_nonempty (fun i => pipe2DBody scenarioA 360 i) 360 pt Hpt).
Qed.

Lemma X14_service_pipe_flipped_onto_padding_witness :
  exists q,
    In q (DxfService.shiftPoints pipe (JS.or (paddingD2 scenarioA) (Num 0))
            (DxfService.calculatePipe2D scenarioA))
    /\ Point2D.y q = JS.or (paddingD2 scenarioA) (Num 0).
Proof.
  apply (X14_service_pipe_flipped_onto_padding scenarioA).
  - rewrite scenarioA_service_pipe_raw. unfold pipe2DRaw.
    rewrite sample_loop_flat_map, app_nil_l.
    exact (kept_samples_finite pipe scenarioA eq_refl).
  - reflexivity.
  - apply scenarioA_service_pipe_nonempty.
Defined.

(** ** The PDF page: [pdf-generator.ts] *)

Lemma pushed_lines_length {A : Type} (f : A -> PdfGenerator.Line) (xs : list A)
    (drawn : list PdfGenerator.Line) :
  List.length (for_each xs (fun a out => out ++ [f a]) drawn)
  = List.length drawn + List.length xs.
Proof.
  rewrite (push_loop (fun a => [f a])), flat_map_singleton, length_app, length_map.
  reflexivity.
Qed.

(** X24. The number of [pdf.line] calls of [generatePdf] is fixed by
    the number of contour points: [n + 723] for the pipe template (the
    curve, three sheet edges and 721 ruler ticks) and [n + 2] for the
    hole (the closed curve and the crosshair); and a whole-degree tick
    is 4, 2.5 or 1.5 high, never the initial 1. *)
Theorem X24_pdf_line_count (type : TemplateType) (points : list Point2D.t) :
  points <> [] ->
  (exists drawn,
      PdfGenerator.linesFor type points = Some drawn
      /\ List.length drawn
         = List.length points + match type with pipe => 723 | hole => 2 end)
  /\ forall deg : nat,
      PdfGenerator.tickH deg
      = if Nat.eqb (deg mod 10) 0 then Num 4
        else if Nat.eqb (deg mod 5) 0 then Num 2.5 else Num 1.5.
Proof.
  intros Hne. split.
  - unfold PdfGenerator.linesFor.
    destruct points as [|p0 rest]; [contradiction Hne; reflexivity|].
    cbn [List.length Nat.eqb]. cbv zeta. eexists. split; [reflexivity|].
    set (b := boundsOf (p0 :: rest)).
    rewrite !length_app. unfold PdfGenerator.contourLines.
    rewrite pushed_lines_length, below_length. cbn [List.length].
    destruct type.
    + unfold PdfGenerator.rulerLines, PdfGenerator.crosshairLines,
        PdfGenerator.closingLines. cbv zeta.
      rewrite !pushed_lines_length, upto_length, below_length. cbn [List.length]. lia.
    + unfold PdfGenerator.rulerLines, PdfGenerator.crosshairLines,
        PdfGenerator.closingLines. cbv zeta. cbn [List.length]. lia.
  - intros deg. unfold PdfGenerator.tickH. rewrite Nat.mod_1_r. reflexivity.
Qed.

Lemma X24_pdf_line_count_witness :
  exists drawn,
    PdfGenerator.linesFor hole [Point2D.mk (Num 0) (Num 0)] = Some drawn
    /\ List.length drawn = 1 + 2.
Proof.
  apply (X24_pdf_line_count hole [Point2D.mk (Num 0) (Num 0)]). discriminate.
Defined.

(** ** The hole template of the download *)

Lemma addLine_no_vertex toFixed (p1 p2 : Point2D.t) (colorIndex : nat)
    (parts : list string) :
  vertexCount (DxfWriter.addLine toFixed p1 p2 colorIndex parts) = vertexCount parts.
Proof.
  unfold DxfWriter.addLine. cbv zeta.
  destruct (Nat.ltb 0 colorIndex); rewrite !vertexCount_app;
    unfold vertexCount; cbn [filter]; simpl; lia.
Qed.

(** X25. The hole template is downloaded with one [VERTEX] record per
    contour point, and one more that repeats the first point exactly
    when the writer finds the last point more than [0.001] away from the
    first; the two centre lines add no [VERTEX] record. *)
Theorem X25_download_hole_vertex_count (toFixed : number -> nat -> string)
    (first : Point2D.t) (rest : list Point2D.t) :
  vertexCount (DownloadAction.dxfParts toFixed hole (first :: rest))
  = List.length (first :: rest)
    + (if JS.gt (DxfWriter.closingDistance first (List.last (first :: rest) first))
                (Num 0.001)
       then 1 else 0).
Proof.
  unfold DownloadAction.dxfParts, DownloadAction.finalPoints. cbv zeta.
  rewrite !addLine_no_vertex. unfold DxfWriter.addPolyline. cbv zeta.
  rewrite vertex_loop.
  destruct (JS.gt (DxfWriter.closingDistance first (List.last (first :: rest) first))
                  (Num 0.001));
    rewrite !vertexCount_app, vertexCount_records;
    change (vertexCount DxfWriter.create) with 0;
    change (vertexCount [DxfWriter.polylineStart true]) with 0;
    change (vertexCount [DxfWriter.seqEnd]) with 0;
    try change (vertexCount [DxfWriter.vertexRecord toFixed first]) with 1; lia.
Qed.

(** ** The depth under a change of sign of the angle *)

Lemma sin_neg_js (a : number) : Math.sin (JS.neg a) = JS.neg (Math.sin a).
Proof. destruct a; simpl; try reflexivity. rewrite sin_neg. reflexivity. Qed.

Lemma cos_neg_js (a : number) : Math.cos (JS.neg a) = Math.cos a.
Proof. destruct a; simpl; try reflexivity. rewrite cos_neg. reflexivity. Qed.

(** The square of [r * s + 0] does not see the sign of [s]. *)
Lemma square_of_opposite (r s : number) :
  Math.pow (JS.add (JS.mul r (JS.neg s)) (Num 0)) 2
  = Math.pow (JS.add (JS.mul r s) (Num 0)) 2.
Proof.
  rewrite !pow_2_square.
  destruct r as [ | | | a], s as [ | | | b]; try reflexivity.
  - simpl. unfold Reqb, Rltb.
    destruct (Req_dec_T (- b) 0), (Req_dec_T b 0); try lra; try reflexivity;
      destruct (Rlt_dec (- b) 0), (Rlt_dec b 0); try lra; reflexivity.
  - simpl. unfold Reqb, Rltb.
    destruct (Req_dec_T (- b) 0), (Req_dec_T b 0); try lra; try reflexivity;
      destruct (Rlt_dec 0 (- b)), (Rlt_dec 0 b); try lra; reflexivity.
  - simpl. unfold Reqb, Rltb.
    destruct (Req_dec_T a 0); try reflexivity.
    destruct (Rlt_dec a 0), (Rlt_dec 0 a); try lra; reflexivity.
  - simpl. unfold Reqb, Rltb.
    destruct (Req_dec_T a 0); try reflexivity.
    destruct (Rlt_dec a 0), (Rlt_dec 0 a); try lra; reflexivity.
  - simpl. f_equal. ring.
Qed.

(** X26. With [offset = 0] the depth of the branch cut is an even
    function of the angular position: the depth computed at [-a] is the
    depth computed at [a], and the sample is skipped at [-a] exactly
    when it is at [a], for every angle ([NaN] and the infinities
    included) and whatever the other parameters are. *)
Theorem X26_depth_even_in_angle (p : PipeParameters) (a : number) :
  offset p = Num 0 ->
  lengthToTouch p (JS.neg a) = lengthToTouch p a.
Proof.
  intros Ho. unfold lengthToTouch. cbv zeta.
  rewrite Ho, sin_neg_js, cos_neg_js, square_of_opposite. reflexivity.
Qed.

Lemma X26_depth_even_in_angle_witness :
  lengthToTouch scenarioA (JS.neg (Num 1)) = lengthToTouch scenarioA (Num 1).
Proof. apply (X26_depth_even_in_angle scenarioA (Num 1)). reflexivity. Defined.
